(** * CompanyInsightAI: the news analysis pipeline

    A shallow embedding of the functions of [utils.py] and of the parts of
    [api.py] and [app.py] that compute on their results, followed by the
    properties the specification states about the topic classifier and the
    comparative analysis engine, and by further properties of the code.

    Conventions of the embedding:
    - a Python [str] is a [string]; texts are taken to be ASCII, and
      [str.lower] maps the letters A-Z to a-z and leaves every other
      character alone;
    - a Python [set] of strings is a [gset string]; iterating over a set
      ([list(s)], [', '.join(s)], [for t in s]) visits [elements s]. Python
      leaves that order unspecified, so the properties below are stated on
      membership, never on a particular order;
    - a Python [dict] that is filled while the code runs is an association
      list in insertion order, because [max(d, key=d.get)] depends on that
      order;
    - an article is a [dict] used as a record: each field is an [option],
      [None] standing for an absent key, so that [article.get(k, default)] is
      [default default_value (k a)];
    - [comparative_analysis] assigns [article['topics']]; the embedding
      threads the article list through the call and returns it next to the
      result. An article object listed twice receives the same topics at
      both positions, because they derive from its title and summary, which
      the call never assigns; updating position by position is therefore
      exact;
    - a Python [float] is a primitive binary64 float;
    - what the code asks of the outside world (the two sentiment scorers,
      the HTML stripper, the summarizer API, the speech synthesis) is a
      parameter of the function that asks for it. *)

From stdpp Require Import gmap strings list pretty sorting.
From Stdlib Require Import Ascii.
From Corelib Require Import PrimFloat.

(** ** The Python built-ins the code relies on *)

Module Py.

(** [c.lower()] on one ASCII character. *)
Definition lower_ascii (c : ascii) : ascii :=
  let n := nat_of_ascii c in
  if (65 <=? n) && (n <=? 90) then ascii_of_nat (n + 32) else c.

(** [s.lower()]. *)
Fixpoint lower (s : string) : string :=
  match s with
  | EmptyString => EmptyString
  | String c s' => String (lower_ascii c) (lower s')
  end.

(** [t.startswith(k)]. *)
Fixpoint startswith (k t : string) : bool :=
  match k, t with
  | EmptyString, _ => true
  | String a k', String b t' => bool_decide (a = b) && startswith k' t'
  | String _ _, EmptyString => false
  end.

(** [k in t] on strings: [k] starts at some position of [t]. *)
Fixpoint contains (k t : string) : bool :=
  startswith k t ||
  match t with
  | EmptyString => false
  | String _ t' => contains k t'
  end.

(** [sep.join(l)]. *)
Fixpoint join (sep : string) (l : list string) : string :=
  match l with
  | [] => ""
  | [x] => x
  | x :: l' => x +:+ sep +:+ join sep l'
  end.

(** [d.get(k)] on an insertion-ordered dict. *)
Fixpoint dict_get {V} (k : string) (d : list (string * V)) : option V :=
  match d with
  | [] => None
  | (k', v) :: d' => if decide (k = k') then Some v else dict_get k d'
  end.

(** [d[k] = v]: an existing key keeps its position, a new key is
    appended. *)
Fixpoint dict_set {V} (k : string) (v : V) (d : list (string * V))
  : list (string * V) :=
  match d with
  | [] => [(k, v)]
  | (k', v') :: d' =>
      if decide (k = k') then (k, v) :: d' else (k', v') :: dict_set k v d'
  end.

(** The loop of [max(iterable, key=...)]: the running best is replaced
    only by a strictly greater key value, so the first maximum wins. *)
Fixpoint max_from (best : string) (best_v : nat) (d : list (string * nat))
  : string :=
  match d with
  | [] => best
  | (k, v) :: d' =>
      if best_v <? v then max_from k v d' else max_from best best_v d'
  end.

(** [max(d, key=d.get)] for a non-empty dict; [None] for the empty one
    (where Python raises [ValueError]). *)
Definition max_key (d : list (string * nat)) : option string :=
  match d with
  | [] => None
  | (k, v) :: d' => Some (max_from k v d')
  end.

End Py.

(** ** The topic classifier *)

(** The literal [topic_keywords] of [extract_topics], in source order. *)
Definition topic_keywords : list (string * list string) :=
  [ ("Finance",
      ["finance"; "market"; "stock"; "invest"; "financial"; "economy";
       "economic"; "shares"; "investors"; "trading"; "profit"; "revenue";
       "earnings"]);
    ("Technology",
      ["tech"; "technology"; "digital"; "software"; "hardware"; "app";
       "device"; "innovation"; "platform"; "product"; "AI";
       "artificial intelligence"]);
    ("Automotive",
      ["vehicle"; "car"; "automotive"; "drive"; "driving"; "EV";
       "electric vehicle"; "autonomous"; "self-driving"; "model"; "battery";
       "charging"]);
    ("Regulation",
      ["regulation"; "regulatory"; "compliance"; "legal"; "law"; "lawsuit";
       "litigation"; "court"; "ruling"; "guideline"; "policy"; "policies"]);
    ("Environment",
      ["environment"; "environmental"; "climate"; "green"; "sustainable";
       "sustainability"; "carbon"; "emission"; "renewable"; "clean energy"])
  ].

(** [any(keyword in text_lower for keyword in keywords)]. *)
Definition any_keyword_in (keywords : list string) (text_lower : string)
  : bool :=
  existsb (fun keyword => Py.contains keyword text_lower) keywords.

(** The [for topic, keywords in topic_keywords.items()] loop, appending to
    [found_topics]. *)
Fixpoint scan_topics (table : list (string * list string))
    (text_lower : string) (found_topics : list string) : list string :=
  match table with
  | [] => found_topics
  | (topic, keywords) :: table' =>
      if any_keyword_in keywords text_lower
      then scan_topics table' text_lower (found_topics ++ [topic])
      else scan_topics table' text_lower found_topics
  end.

Definition extract_topics (text : string) : list string :=
  let text_lower := Py.lower text in
  let found_topics := scan_topics topic_keywords text_lower [] in
  match found_topics with
  | [] => ["General"]
  | _ => found_topics
  end.

(** ** The data of the analysis engine *)

(** An article record. [scrape_google_news] fills [title], [summary],
    [source], [link] and [date]; the callers add [sentiment] and [topics]. *)
Record article := Article {
  title : option string;
  summary : option string;
  source : option string;
  link : option string;
  date : option string;
  sentiment : option string;
  topics : option (list string)
}.

(** [article['topics'] = ts]. *)
Definition set_topics (a : article) (ts : list string) : article :=
  {| title := title a; summary := summary a; source := source a;
     link := link a; date := date a; sentiment := sentiment a;
     topics := Some ts |}.

(** One entry of [coverage_differences]. *)
Record coverage_item := CoverageItem {
  comparison : string;
  impact : string
}.

(** The values stored under the keys of [topic_overlap]. *)
Inductive overlap_value :=
| TopicList (l : list string)
| TopicCount (d : list (string * nat)).

(** The dict returned by [comparative_analysis]; its three keys are always
    present, so it is a record. [topic_overlap] is itself a dict whose keys
    are present or not depending on the path taken. *)
Record analysis := Analysis {
  sentiment_distribution : list (string * nat);
  topic_overlap : list (string * overlap_value);
  coverage_differences : list coverage_item
}.

(** ** The comparative analysis engine *)

(** [article.get('sentiment', 'Unknown')]. *)
Definition get_sentiment (a : article) : string :=
  default "Unknown" (sentiment a).

(** [f"{title} {summary}"] with both fields read through [.get(_, '')]. *)
Definition combined_text (a : article) : string :=
  default "" (title a) +:+ " " +:+ default "" (summary a).

(** Body of the sentiment loop. *)
Definition count_sentiment (sentiment_counts : list (string * nat))
    (a : article) : list (string * nat) :=
  let s := get_sentiment a in
  Py.dict_set s (default 0 (Py.dict_get s sentiment_counts) + 1)
    sentiment_counts.

(** State of the topic loop: the articles already visited (with their new
    [topics]), [article_topics] and [all_topics]. *)
Record topic_state := TopicState {
  visited : list article;
  article_topics : list (list string);
  all_topics : gset string
}.

(** Body of the topic loop. *)
Definition topic_step (st : topic_state) (a : article) : topic_state :=
  let ts := extract_topics (combined_text a) in
  {| visited := visited st ++ [set_topics a ts];
     article_topics := article_topics st ++ [ts];
     all_topics := all_topics st ∪ list_to_set ts |}.

Definition topic_loop (articles : list article) : topic_state :=
  foldl topic_step
    {| visited := []; article_topics := []; all_topics := ∅ |} articles.

(** The [common_topics] loop, started from a copy of [all_topics]. *)
Definition common_of (all : gset string) (per_article : list (list string))
  : gset string :=
  foldl (fun common ts => common ∩ list_to_set ts) all per_article.

(** [sum(1 for article_topic in article_topics if topic in article_topic)]. *)
Definition topic_count (topic : string) (per_article : list (list string))
  : nat :=
  length (filter (fun ts => topic ∈ ts) per_article).

(** The [topic_frequency] loop over [all_topics]. *)
Definition frequency_of (all : gset string) (per_article : list (list string))
  : list (string * nat) :=
  foldl (fun freq topic => Py.dict_set topic (topic_count topic per_article) freq)
    [] (elements all).

(** The topics of a sentiment subset: the union of the [topics] fields, read
    through [a.get('topics', [])]. *)
Definition subset_topics (subset : list article) : gset string :=
  foldl (fun acc a => acc ∪ list_to_set (default [] (topics a))) ∅ subset.

(** [', '.join(s) if s else 'various topics']. The order of [elements s]
    stands for the order in which the running process iterates the set; the
    properties below hold for any order. *)
Definition focus_phrase (s : gset string) : string :=
  if decide (s = ∅) then "various topics" else Py.join ", " (elements s).

(** [a.get('sentiment') == label]. *)
Definition has_sentiment (label : string) (a : article) : Prop :=
  sentiment a = Some label.

Global Instance has_sentiment_dec label a : Decision (has_sentiment label a) :=
  decide (sentiment a = Some label).

(** The Positive-versus-Negative entry. *)
Definition contrast_item (pos_articles neg_articles : list article)
  : coverage_item :=
  let pos_topics := subset_topics pos_articles in
  let neg_topics := subset_topics neg_articles in
  let pos_unique := pos_topics ∖ neg_topics in
  let neg_unique := neg_topics ∖ pos_topics in
  {| comparison :=
       "Positive articles focus on " +:+ focus_phrase pos_unique +:+
       ", while negative articles focus on " +:+ focus_phrase neg_unique +:+
       ".";
     impact :=
       "This contrast shows different aspects of the company's public perception." |}.

(** The overall-trend entry. *)
Definition perception (max_sentiment : string) : string :=
  if decide (max_sentiment = "Positive") then "a positive public perception"
  else if decide (max_sentiment = "Negative") then "a negative public perception"
  else "a balanced public perception".

Definition trend_item (max_sentiment : string) : coverage_item :=
  {| comparison :=
       "Overall coverage is predominantly " +:+ Py.lower max_sentiment +:+ ".";
     impact :=
       "The " +:+ Py.lower max_sentiment +:+ " sentiment suggests " +:+
       perception max_sentiment +:+ "." |}.

(** The block under [# Generate coverage differences]; [articles] are the
    articles after the topic loop. *)
Definition coverage (articles : list article)
    (sentiment_counts : list (string * nat)) : list coverage_item :=
  if 2 <=? length articles then
    let sentiments : gset string := list_to_set (get_sentiment <$> articles) in
    if 2 <=? size sentiments then
      let pos_articles := filter (has_sentiment "Positive") articles in
      let neg_articles := filter (has_sentiment "Negative") articles in
      let comparisons :=
        match pos_articles, neg_articles with
        | _ :: _, _ :: _ => [contrast_item pos_articles neg_articles]
        | _, _ => []
        end in
      match Py.max_key sentiment_counts with
      | Some max_sentiment => comparisons ++ [trend_item max_sentiment]
      | None => comparisons
      end
    else []
  else [].

(** [comparative_analysis(articles)]: the articles as the call leaves them,
    and the returned dict. *)
Definition comparative_analysis (articles : list article)
  : list article * analysis :=
  match articles with
  | [] =>
      ([], {| sentiment_distribution := [];
              topic_overlap := [];
              coverage_differences := [] |})
  | _ :: _ =>
      let sentiment_counts := foldl count_sentiment [] articles in
      let st := topic_loop articles in
      let common_topics := common_of (all_topics st) (article_topics st) in
      let topic_analysis :=
        [ ("common_topics", TopicList (elements common_topics));
          ("all_topics", TopicList (elements (all_topics st)));
          ("topic_frequency",
             TopicCount (frequency_of (all_topics st) (article_topics st))) ] in
      (visited st,
       {| sentiment_distribution := sentiment_counts;
          topic_overlap := topic_analysis;
          coverage_differences := coverage (visited st) sentiment_counts |})
  end.

(** The function the specification calls [analyze]. *)
Definition analyze (articles : list article) : analysis :=
  (comparative_analysis articles).2.

(** The articles as [comparative_analysis] leaves them. *)
Definition articles_after (articles : list article) : list article :=
  (comparative_analysis articles).1.

(** Readers of [topic_overlap] in the style of the callers
    ([d['k'] if 'k' in d else {}]): an absent key reads as empty. *)
Definition common_topics_of (r : analysis) : list string :=
  match Py.dict_get "common_topics" (topic_overlap r) with
  | Some (TopicList l) => l
  | _ => []
  end.

Definition all_topics_of (r : analysis) : list string :=
  match Py.dict_get "all_topics" (topic_overlap r) with
  | Some (TopicList l) => l
  | _ => []
  end.

Definition topic_frequency_of (r : analysis) : list (string * nat) :=
  match Py.dict_get "topic_frequency" (topic_overlap r) with
  | Some (TopicCount d) => d
  | _ => []
  end.

(** The topic list the classifier derives for an article, and the article
    carrying it. *)
Definition derived_topics (a : article) : list string :=
  extract_topics (combined_text a).

Definition retag (a : article) : article := set_topics a (derived_topics a).

(** The union of the derived topic sets of the articles bearing the
    sentiment [label]. *)
Definition label_topics (label : string) (articles : list article)
  : gset string :=
  ⋃ ((fun a => list_to_set (derived_topics a)) <$>
       filter (has_sentiment label) articles).

(** An article stripped of any topics attached before the call. *)
Definition untagged (a : article) : article :=
  {| title := title a; summary := summary a; source := source a;
     link := link a; date := date a; sentiment := sentiment a;
     topics := None |}.


(** The degenerate result in the words of the specification: the topic
    overlap carries its three fields, each of them empty. *)
Definition degenerate_result_spec : analysis :=
  {| sentiment_distribution := [];
     topic_overlap :=
       [ ("common_topics", TopicList []);
         ("all_topics", TopicList []);
         ("topic_frequency", TopicCount []) ];
     coverage_differences := [] |}.

(** Sample articles. *)
Definition mk (t s : string) (sent : option string) : article :=
  {| title := Some t; summary := Some s; source := Some "Example News";
     link := Some "#"; date := Some "Unknown date"; sentiment := sent;
     topics := None |}.

Definition a_pos := mk "Shares surge" "Investors cheer record profit" (Some "Positive").
Definition a_neg := mk "Recall announced" "Battery fault in new car" (Some "Negative").
Definition a_neu := mk "Annual meeting" "The board met on Tuesday" (Some "Neutral").
Definition a_missing := mk "Annual meeting" "The board met on Tuesday" None.

(** ** Vocabulary of the specification *)

(** The characters of a string. *)
Fixpoint chars (s : string) : list ascii :=
  match s with
  | EmptyString => []
  | String c s' => c :: chars s'
  end.

(** [k] occurs in [t] as a substring. *)
Definition occurs_in (k t : string) : Prop :=
  ∃ pre post, t = pre +:+ k +:+ post.

(** The characters Python's [str.isspace] and [str.strip] treat as blank,
    within ASCII: tab, line feed, vertical tab, form feed, carriage return,
    the four separators 28-31 and the space. *)
Definition is_whitespace (c : ascii) : bool :=
  let n := nat_of_ascii c in
  ((9 <=? n) && (n <=? 13)) || ((28 <=? n) && (n <=? 32)).

Definition whitespace_only (text : string) : Prop :=
  Forall (fun c => is_whitespace c = true) (chars text).

Definition is_upper (c : ascii) : bool :=
  let n := nat_of_ascii c in (65 <=? n) && (n <=? 90).

(** A keyword of some topic bucket of the taxonomy. *)
Definition is_keyword (k : string) : Prop :=
  ∃ topic keywords, (topic, keywords) ∈ topic_keywords ∧ k ∈ keywords.

(** Number of articles of [l] counted under the label [k]. *)
Definition count_label (k : string) (l : list article) : nat :=
  length (filter (fun a => get_sentiment a = k) l).

(** ** More Python built-ins *)

Module PyLib.

(** [s.lstrip()], [s.rstrip()] and [s.strip()]. *)
Fixpoint lstrip (s : string) : string :=
  match s with
  | EmptyString => EmptyString
  | String c s' => if is_whitespace c then lstrip s' else s
  end.

Definition rstrip (s : string) : string := String.rev (lstrip (String.rev s)).

Definition strip (s : string) : string := rstrip (lstrip s).

(** One insertion of a stable sort: [x], which stood before every element
    of the sorted list [l], moves right only past the elements that must
    come strictly before it. *)
Fixpoint insert_sorted {A} (before : A → A → bool) (x : A) (l : list A)
  : list A :=
  match l with
  | [] => [x]
  | y :: l' => if before y x then y :: insert_sorted before x l' else x :: l
  end.

(** A stable sort; [before y x] says that [y] has to come strictly before
    [x]. Elements that neither precede the other keep their order, as with
    [sorted]. *)
Definition stable_sort {A} (before : A → A → bool) (l : list A) : list A :=
  foldr (insert_sorted before) [] l.

(** [sorted(d.items(), key=lambda x: x[1], reverse=True)]. *)
Definition sorted_by_count_desc (items : list (string * nat))
  : list (string * nat) :=
  stable_sort (fun y x => x.2 <? y.2) items.

End PyLib.

(** ** The sentiment scorer *)

(** [analyze_sentiment(text)]. The two external scorers are parameters:
    [polarity text] stands for [TextBlob(text).sentiment.polarity] and
    [compound text] for the VADER compound score, [None] when the library
    raises. The thresholds are the doubles nearest to 0.05 and -0.05. *)
Definition analyze_sentiment (polarity compound : string → option float)
    (text : string) : string :=
  if bool_decide (text = "") || bool_decide (PyLib.strip text = "")
  then "Neutral"
  else
    match polarity text, compound text with
    | Some p, Some c =>
        let final_score := PrimFloat.div (PrimFloat.add p c) 2%float in
        if PrimFloat.ltb 0x1.999999999999ap-5%float final_score then "Positive"
        else if PrimFloat.ltb final_score (-0x1.999999999999ap-5)%float
        then "Negative"
        else "Neutral"
    | _, _ => "Neutral"
    end.

(** ** The news fetcher: from feed items to article records *)

(** What the loop of [scrape_google_news] reads from one feed item: the
    text of each of the five tags, [None] when [item.find] finds no such
    tag. *)
Record feed_item := FeedItem {
  title_tag : option string;
  description_tag : option string;
  source_tag : option string;
  link_tag : option string;
  date_tag : option string
}.

(** What the call of the HTML stripper comes to: the stripped text, or an
    exception. The loop catches [AttributeError] and [TypeError] and goes on
    to the next item; any other exception reaches the handler of the whole
    function, which returns the empty list. *)
Inductive strip_result :=
| Stripped (text : string)
| StripSkipped
| StripAborted.

(** What one turn of the loop comes to. *)
Inductive item_result :=
| ItemArticle (a : article)
| ItemSkipped
| ItemAborted.

(** Body of the loop over the items, up to [articles.append]. The reads of
    the five tags do not raise on the items of a parsed feed;
    [remove_html_tags] is the call that can. *)
Definition article_of_item (remove_html_tags : string → strip_result)
    (item : feed_item) : item_result :=
  let title := default "No title" (title_tag item) in
  let summary_text := default "No description" (description_tag item) in
  let source := default "Unknown source" (source_tag item) in
  let link := default "#" (link_tag item) in
  let date := default "Unknown date" (date_tag item) in
  match remove_html_tags summary_text with
  | Stripped cleaned_summary =>
      ItemArticle
        {| title := Some title; summary := Some cleaned_summary;
           source := Some source; link := Some link; date := Some date;
           sentiment := None; topics := None |}
  | StripSkipped => ItemSkipped
  | StripAborted => ItemAborted
  end.

(** The loop, with the articles appended so far; an aborted turn makes the
    function return [[]]. *)
Fixpoint collect_articles (remove_html_tags : string → strip_result)
    (articles : list article) (items : list feed_item) : list article :=
  match items with
  | [] => articles
  | item :: rest =>
      match article_of_item remove_html_tags item with
      | ItemArticle a =>
          collect_articles remove_html_tags (articles ++ [a]) rest
      | ItemSkipped => collect_articles remove_html_tags articles rest
      | ItemAborted => []
      end
  end.

(** [for item in items[:10]: ...] and [return articles]. *)
Definition articles_of_items (remove_html_tags : string → strip_result)
    (items : list feed_item) : list article :=
  collect_articles remove_html_tags [] (take 10 items).

(** ** The callers: tagging and the basic summary *)

(** Body of the tagging loop of [analyze_news] and of the dashboard.
    [article['summary']] and [article['title']] raise [KeyError] on an
    absent key: the result is then [None]. *)
Definition tag_article (polarity compound : string → option float)
    (a : article) : option article :=
  s ← summary a;
  t ← title a;
  Some {| title := title a; summary := summary a; source := source a;
          link := link a; date := date a;
          sentiment := Some (analyze_sentiment polarity compound s);
          topics := Some (extract_topics (t +:+ " " +:+ s)) |}.

Definition tag_articles (polarity compound : string → option float)
    (articles : list article) : option (list article) :=
  mapM (tag_article polarity compound) articles.

(** [sorted(topic_freq.items(), ...)[:3] if topic_freq else []]. *)
Definition top_topics (r : analysis) : list (string * nat) :=
  take 3 (PyLib.sorted_by_count_desc (topic_frequency_of r)).

(** The basic summary the callers fall back to when the summarizer gives
    nothing. *)
Definition basic_summary (company : string) (analyzed_articles : list article)
    (r : analysis) : string :=
  let total_articles := length analyzed_articles in
  let sentiment_counts := sentiment_distribution r in
  let dominant_sentiment := default "Mixed" (Py.max_key sentiment_counts) in
  let top_topics_text :=
    match top_topics r with
    | [] => "various topics"
    | top => Py.join ", " top.*1
    end in
  "News analysis for " +:+ company +:+ " based on " +:+
  pretty total_articles +:+ " recent articles. The overall sentiment is " +:+
  Py.lower dominant_sentiment +:+ ", with coverage focusing on " +:+
  top_topics_text +:+ ".".

(** ** The local summarizer *)

(** [d.get(k)] and [d[k] = v] on an insertion-ordered dict with keys of any
    type. *)
Fixpoint lookup_key {K V} `{EqDecision K} (k : K) (d : list (K * V))
  : option V :=
  match d with
  | [] => None
  | (k', v) :: d' => if decide (k = k') then Some v else lookup_key k d'
  end.

Fixpoint store_key {K V} `{EqDecision K} (k : K) (v : V) (d : list (K * V))
  : list (K * V) :=
  match d with
  | [] => [(k, v)]
  | (k', v') :: d' =>
      if decide (k = k') then (k, v) :: d' else (k', v') :: store_key k v d'
  end.

(** The characters of the class [[.!?]]. *)
Definition is_terminator (c : ascii) : bool :=
  match c with
  | "."%char | "!"%char | "?"%char => true
  | _ => false
  end.

Definition starts_blank (s : string) : bool :=
  match s with
  | EmptyString => false
  | String c _ => is_whitespace c
  end.

(** [re.split(r'(?<=[.!?])\s+', text)]: the text is cut at every run of
    blanks that follows one of [.!?], and the run is dropped. [acc] holds
    the current piece, last character first; [gap] says that a run is being
    skipped. *)
Fixpoint split_go (acc : string) (gap : bool) (s : string) : list string :=
  match s with
  | EmptyString => [String.rev acc]
  | String c s' =>
      if gap && is_whitespace c then split_go acc true s'
      else if is_terminator c && starts_blank s'
      then String.rev (String c acc) :: split_go "" true s'
      else split_go (String c acc) false s'
  end.

Definition split_sentences (text : string) : list string :=
  split_go "" false text.

(** [s.split()]: the maximal runs of characters that are not blank. *)
Fixpoint words_go (acc : string) (s : string) : list string :=
  match s with
  | EmptyString => if decide (acc = "") then [] else [String.rev acc]
  | String c s' =>
      if is_whitespace c
      then (if decide (acc = "") then words_go "" s'
            else String.rev acc :: words_go "" s')
      else words_go (String c acc) s'
  end.

Definition split_words (s : string) : list string := words_go "" s.

(** A count as a float: [n] times one added to zero, exact below 2^53. *)
Fixpoint float_of_nat (n : nat) : float :=
  match n with
  | 0 => 0%float
  | S n' => PrimFloat.add (float_of_nat n') 1%float
  end.

(** The word-frequency loop. *)
Definition count_word (word_frequencies : list (string * nat)) (word : string)
  : list (string * nat) :=
  match Py.dict_get word word_frequencies with
  | None => Py.dict_set word 1 word_frequencies
  | Some n => Py.dict_set word (n + 1) word_frequencies
  end.

Definition count_words (sentences : list string) : list (string * nat) :=
  foldl (fun freq sentence =>
           foldl count_word freq (split_words (Py.lower sentence)))
        [] sentences.

(** [max(word_frequencies.values()) if word_frequencies else 1]. *)
Definition max_frequency (word_frequencies : list (string * nat)) : nat :=
  match word_frequencies with
  | [] => 1
  | _ => max_list word_frequencies.*2
  end.

(** The normalisation loop: every count divided by the greatest. *)
Definition normalize (word_frequencies : list (string * nat))
  : list (string * float) :=
  let m := max_frequency word_frequencies in
  (fun wn => (wn.1, PrimFloat.div (float_of_nat wn.2) (float_of_nat m))) <$>
    word_frequencies.

(** Body of the scoring loop for the word [word] of sentence [i]. *)
Definition add_score (weights : list (string * float)) (i : nat)
    (sentence_scores : list (nat * float)) (word : string)
  : list (nat * float) :=
  match Py.dict_get word weights with
  | Some w =>
      match lookup_key i sentence_scores with
      | None => store_key i w sentence_scores
      | Some x => store_key i (PrimFloat.add x w) sentence_scores
      end
  | None => sentence_scores
  end.

(** The scoring loop over [enumerate(sentences)], from index [i] on. *)
Fixpoint score_from (weights : list (string * float)) (i : nat)
    (sentence_scores : list (nat * float)) (sentences : list string)
  : list (nat * float) :=
  match sentences with
  | [] => sentence_scores
  | sentence :: rest =>
      score_from weights (S i)
        (foldl (add_score weights i) sentence_scores
               (split_words (Py.lower sentence)))
        rest
  end.

(** [local_summarize(text, max_sentences)] on ASCII text: [len(text)] is
    the number of bytes, and the blanks of [\s] and [split()] are the ASCII
    ones. The indices chosen are keys of [sentence_scores], hence positions
    of [sentences]; [sentences[i]] is read with the total lookup. *)
Definition local_summarize (text : string) (max_sentences : nat) : string :=
  if bool_decide (text = "") || (String.length text <? 100) then text
  else
    let sentences := split_sentences text in
    if length sentences <=? max_sentences then text
    else
      let weights := normalize (count_words sentences) in
      let sentence_scores := score_from weights 0 [] sentences in
      let score i := default 0%float (lookup_key i sentence_scores) in
      let ranked :=
        PyLib.stable_sort (fun y x => PrimFloat.ltb (score x) (score y))
          sentence_scores.*1 in
      let summary_sentences_indices :=
        PyLib.stable_sort (fun y x => y <? x) (take max_sentences ranked) in
      Py.join " " ((fun i => sentences !!! i) <$> summary_sentences_indices).

(** ** The summarizer and its fallback *)

(** What the HTTP call of [get_groq_summary] can come to: the content of
    the first choice, which in a chat completion is a JSON string or the
    JSON [null], or one of the three exceptions the function catches. *)
Inductive api_result :=
| ApiContent (content : string)
| ApiNull
| ApiRequestError
| ApiKeyError
| ApiOtherError.

(** [get_groq_summary(text, fallback)]; [api_key] is the value of the
    environment variable, [call] the HTTP request. [None] is Python's
    [None]; the content is returned as it is, so that a [null] content
    gives [None] whatever [fallback] is. *)
Definition get_groq_summary (api_key : option string)
    (call : string → api_result) (text : string) (fallback : bool)
  : option string :=
  let failed := if fallback then Some (local_summarize text 5) else None in
  match api_key with
  | None => failed
  | Some key =>
      if bool_decide (key = "") then failed
      else
        match call text with
        | ApiContent content => Some content
        | ApiNull => None
        | ApiRequestError | ApiKeyError | ApiOtherError => failed
        end
  end.

(** The summary the callers end up with: the summarizer's answer unless it
    is [None] or empty, in which case the basic summary. *)
Definition comprehensive_summary (api_key : option string)
    (call : string → api_result) (prompt company : string)
    (analyzed_articles : list article) (r : analysis) : string :=
  match get_groq_summary api_key call prompt true with
  | Some summary =>
      if bool_decide (summary = "")
      then basic_summary company analyzed_articles r
      else summary
  | None => basic_summary company analyzed_articles r
  end.

(** ** The narration *)

(** The table [language_names]. *)
Definition language_names : list (string * string) :=
  [ ("hi", "Hindi"); ("es", "Spanish"); ("fr", "French"); ("de", "German");
    ("zh-cn", "Chinese") ].

(** The message spoken when the translation comes back empty; the texts
    are the UTF-8 bytes of the source. *)
Definition fallback_message (language company_name : string) : string :=
  if decide (language = "hi") then
    company_name +:+ " के बारे में समाचार सारांश। यह एक स्थानीय रूप से उत्पन्न संदेश है क्योंकि अनुवाद API उपलब्ध नहीं थी।"
  else if decide (language = "es") then
    "Resumen de noticias sobre " +:+ company_name +:+ ". Este es un mensaje generado localmente porque la API de traducción no estaba disponible."
  else if decide (language = "fr") then
    "Résumé des nouvelles sur " +:+ company_name +:+ ". Il s'agit d'un message généré localement car l'API de traduction n'était pas disponible."
  else if decide (language = "de") then
    "Nachrichtenzusammenfassung über " +:+ company_name +:+ ". Dies ist eine lokal generierte Nachricht, da die Übersetzungs-API nicht verfügbar war."
  else if decide (language = "zh-cn") then
    "关于" +:+ company_name +:+ "的新闻摘要。这是一条本地生成的消息，因为翻译API不可用。"
  else
    "News summary about " +:+ company_name +:+ ". This is a locally generated message as the translation API was not available.".

Definition newline : string := String "010"%char "".

(** The prompt sent for translation. *)
Definition translation_prompt (company_name text language : string) : string :=
  let language_name := default language (Py.dict_get language language_names) in
  "Translate and summarize the following text about " +:+ company_name +:+
  " to " +:+ language_name +:+
  ". Keep the main points and key insights:" +:+ newline +:+ newline +:+ text.

(** The text [generate_hindi_tts] hands to the speech synthesis. *)
Definition tts_text (api_key : option string) (call : string → api_result)
    (company_name text language : string) : string :=
  if decide (language ≠ "en") then
    match get_groq_summary api_key call
            (translation_prompt company_name text language) true with
    | Some translated_text =>
        if bool_decide (translated_text = "")
        then fallback_message language company_name
        else translated_text
    | None => fallback_message language company_name
    end
  else text.

(** [generate_hindi_tts(company_name, text, language, filename)];
    [synthesize tts_text language] tells whether the speech synthesis and
    the saving of the file go through. *)
Definition generate_hindi_tts (api_key : option string)
    (call : string → api_result) (synthesize : string → string → bool)
    (company_name text language filename : string) : option string :=
  if synthesize (tts_text api_key call company_name text language) language
  then Some filename
  else None.

(** ** More vocabulary *)

(** The six topic labels. *)
Definition taxonomy : list string :=
  ["Finance"; "Technology"; "Automotive"; "Regulation"; "Environment";
   "General"].

(** The three labels of the sentiment scorer. *)
Definition scorer_labels : list string := ["Positive"; "Negative"; "Neutral"].

(** The distinct elements of a list in the order of their first
    occurrence. *)
Fixpoint first_occurrences (l : list string) : list string :=
  match l with
  | [] => []
  | x :: l' => x :: filter (fun y => y ≠ x) (first_occurrences l')
  end.

(** A piece that ends with one of [.!?]. *)
Definition ends_sentence (piece : string) : Prop :=
  ∃ c rest, String.rev piece = String c rest ∧ is_terminator c = true.

(** A text all of whose characters are ASCII: on such a text the length in
    bytes is the length in characters, and the blanks, the letter cases and
    the sentence ends of the embedding are those of Python. *)
Definition ascii_text (text : string) : Prop :=
  Forall (fun c => nat_of_ascii c < 128) (chars text).

(** The length of the pieces of a list once joined by single separators,
    plus one. *)
Definition joined_size (pieces : list string) : nat :=
  sum_list ((fun piece => S (String.length piece)) <$> pieces).

(** The summarizer API gives no content: the key is missing or empty, or
    the request ends in one of the exceptions. *)
Definition api_unavailable (api_key : option string)
    (call : string → api_result) (text : string) : Prop :=
  api_key = None ∨ api_key = Some "" ∨
  call text = ApiRequestError ∨ call text = ApiKeyError ∨
  call text = ApiOtherError.

(** A sentence with a word that has a weight, and the positions, counted
    from [i], of such sentences in a list. *)
Definition scored (weights : list (string * float)) (sentence : string)
  : Prop :=
  Exists (fun word => is_Some (Py.dict_get word weights))
         (split_words (Py.lower sentence)).

Global Instance scored_dec weights sentence : Decision (scored weights sentence) :=
  Exists_dec _ _.

Fixpoint scored_indices (weights : list (string * float)) (i : nat)
    (sentences : list string) : list nat :=
  match sentences with
  | [] => []
  | sentence :: rest =>
      (if decide (scored weights sentence) then [i] else []) ++
      scored_indices weights (S i) rest
  end.

(** An article record as the fetcher builds it: the five fields present,
    neither sentiment nor topics. *)
Definition fetched (a : article) : Prop :=
  is_Some (title a) ∧ is_Some (summary a) ∧ is_Some (source a) ∧
  is_Some (link a) ∧ is_Some (date a) ∧
  sentiment a = None ∧ topics a = None.

(** The item makes the stripper raise an exception that abandons the
    fetch. *)
Definition aborts (remove_html_tags : string → strip_result)
    (item : feed_item) : Prop :=
  remove_html_tags (default "No description" (description_tag item)) =
  StripAborted.

(** The title the fetcher gives to an item. *)
Definition item_title (item : feed_item) : option string :=
  Some (default "No title" (title_tag item)).

(** Sample data for the callers. *)
Definition no_score (text : string) : option float := None.
Definition fixed_score (x : float) (text : string) : option float := Some x.

Definition four_topics : list article :=
  [ mk "Stock of a software maker" "up" (Some "Positive");
    mk "Stock of a car maker" "down" (Some "Negative");
    mk "Court date set" "soon" (Some "Neutral");
    mk "Software stock" "flat" (Some "Neutral") ].

Definition sample_text : string :=
  "Alpha beta market. Beta gamma rises!  Gamma falls? Delta beta beta beta. Epsilon stays. Zeta eta theta iota. Theta beta again and again.  ".

Definition feed3 : list feed_item :=
  [ {| title_tag := Some "Shares surge"; description_tag := Some "<b>Record profit</b>";
       source_tag := Some "Example News"; link_tag := None; date_tag := None |};
    {| title_tag := None; description_tag := None; source_tag := None;
       link_tag := None; date_tag := None |};
    {| title_tag := Some "New car"; description_tag := Some "An electric vehicle";
       source_tag := None; link_tag := Some "http://example.org"; date_tag := None |} ].

(** ** The scenarios of the specification *)

Example extract_topics_stock_market :
  extract_topics "The Stock Market rallied" = ["Finance"].
Proof. vm_compute. reflexivity. Qed.

Example extract_topics_two :
  extract_topics "stock of electric vehicle makers" = ["Finance"; "Automotive"].
Proof. vm_compute. reflexivity. Qed.

Example scenario_pos_neg :
  sentiment_distribution (analyze [a_pos; a_neg]) =
    [("Positive", 1); ("Negative", 1)] ∧
  common_topics_of (analyze [a_pos; a_neg]) = [] ∧
  all_topics_of (analyze [a_pos; a_neg]) ≡ₚ ["Finance"; "Automotive"] ∧
  topic_frequency_of (analyze [a_pos; a_neg]) ≡ₚ
    [("Finance", 1); ("Automotive", 1)] ∧
  coverage_differences (analyze [a_pos; a_neg]) =
    [ {| comparison :=
           "Positive articles focus on Finance, while negative articles focus on Automotive.";
         impact :=
           "This contrast shows different aspects of the company's public perception." |};
      {| comparison := "Overall coverage is predominantly positive.";
         impact :=
           "The positive sentiment suggests a positive public perception." |} ].
Proof.
  vm_compute. split_and!; try reflexivity; apply Permutation_swap.
Qed.

Example extract_topics_empty : extract_topics "" = ["General"].
Proof. vm_compute. reflexivity. Qed.

Example scenario_all_neutral :
  coverage_differences (analyze [a_neu; a_neu; a_neu]) = [] ∧
  sentiment_distribution (analyze [a_neu; a_neu; a_neu]) = [("Neutral", 3)].
Proof. vm_compute. split; reflexivity. Qed.

Example scenario_single : coverage_differences (analyze [a_pos]) = [].
Proof. vm_compute. reflexivity. Qed.

Example scenario_missing_sentiment :
  sentiment_distribution (analyze [a_pos; a_missing; a_missing]) =
  [("Positive", 1); ("Unknown", 2)].
Proof. vm_compute. reflexivity. Qed.

(** With equal counts the label met first is the dominant one. *)
Example scenario_tie :
  Py.max_key [("Negative", 1); ("Positive", 1)] = Some "Negative".
Proof. reflexivity. Qed.

(** ** Strings *)

Section strings.

Lemma app_nil (s : string) : "" +:+ s = s.
Proof. reflexivity. Qed.

Lemma app_cons (c : ascii) (s t : string) :
  String c s +:+ t = String c (s +:+ t).
Proof. reflexivity. Qed.

Lemma chars_app (s t : string) : chars (s +:+ t) = chars s ++ chars t.
Proof.
  induction s as [|c s IH]; [reflexivity|].
  rewrite app_cons. simpl. by rewrite IH.
Qed.

Lemma startswith_spec (k t : string) :
  Py.startswith k t = true ↔ ∃ post, t = k +:+ post.
Proof.
  revert t. induction k as [|a k IH]; intros t; simpl.
  - split; [intros _; by exists t | done].
  - destruct t as [|b t].
    + split; [done | intros [post Hpost]; by rewrite app_cons in Hpost].
    + rewrite andb_true_iff, bool_decide_eq_true, IH. split.
      * intros [-> [post ->]]. by exists post.
      * intros [post Hpost]. rewrite app_cons in Hpost.
        injection Hpost as -> ->. eauto.
Qed.

Lemma contains_spec (k t : string) :
  Py.contains k t = true ↔ occurs_in k t.
Proof.
  unfold occurs_in. induction t as [|b t IH].
  - simpl. rewrite orb_false_r, startswith_spec. split.
    + intros [post Hpost]. by exists "", post.
    + intros [[|c pre] [post Hpost]]; [by exists post|].
      by rewrite app_cons in Hpost.
  - simpl Py.contains. rewrite orb_true_iff, startswith_spec, IH. split.
    + intros [[post Hpost] | (pre & post & ->)].
      * by exists "", post.
      * by exists (String b pre), post.
    + intros [[|c pre] [post Hpost]].
      * left. by exists post.
      * right. rewrite app_cons in Hpost. injection Hpost as -> ->. eauto.
Qed.

Lemma contains_chars (k t : string) :
  Py.contains k t = true → chars k ⊆ chars t.
Proof.
  intros (pre & post & ->)%contains_spec c Hc.
  rewrite !chars_app, !elem_of_app. auto.
Qed.

Lemma chars_lower (s : string) : chars (Py.lower s) = Py.lower_ascii <$> chars s.
Proof. induction s as [|c s IH]; simpl; [done | by rewrite IH]. Qed.

Lemma lower_ascii_not_upper (c : ascii) : is_upper (Py.lower_ascii c) = false.
Proof. by destruct c as [[] [] [] [] [] [] [] []]. Qed.

Lemma lower_ascii_whitespace (c : ascii) :
  is_whitespace c = true → Py.lower_ascii c = c.
Proof. by destruct c as [[] [] [] [] [] [] [] []]. Qed.

Lemma lower_no_upper (s : string) (c : ascii) :
  c ∈ chars (Py.lower s) → is_upper c = false.
Proof.
  rewrite chars_lower. intros (c' & -> & _)%list_elem_of_fmap.
  apply lower_ascii_not_upper.
Qed.

Lemma lower_whitespace_only (s : string) :
  whitespace_only s → whitespace_only (Py.lower s).
Proof.
  unfold whitespace_only. rewrite chars_lower, Forall_fmap.
  intros H. eapply Forall_impl; [exact H|].
  intros c Hc. simpl. by rewrite lower_ascii_whitespace.
Qed.

End strings.

(** ** The topic classifier *)

Section classifier.

Lemma any_keyword_in_true (keywords : list string) (text : string) :
  any_keyword_in keywords text = true ↔
  ∃ k, k ∈ keywords ∧ occurs_in k text.
Proof.
  unfold any_keyword_in. rewrite existsb_exists.
  setoid_rewrite contains_spec. by setoid_rewrite <- list_elem_of_In.
Qed.

Lemma scan_topics_elem table text acc (t : string) :
  t ∈ scan_topics table text acc ↔
  t ∈ acc ∨ ∃ kws, (t, kws) ∈ table ∧ any_keyword_in kws text = true.
Proof.
  revert acc. induction table as [|[topic kws] table IH]; intros acc; simpl.
  - split; [auto | intros [?|(? & []%elem_of_nil & _)]; done].
  - destruct (any_keyword_in kws text) eqn:Hany; rewrite IH.
    + rewrite elem_of_app, list_elem_of_singleton. split.
      * intros [[?| ->]|(kws' & ? & ?)]; [by left | |].
        -- right. exists kws. split; [left | done].
        -- right. exists kws'. split; [by right | done].
      * intros [?|(kws' & [[= -> ->]|?]%elem_of_cons & ?)]; eauto.
    + split.
      * intros [?|(kws' & ? & ?)]; [by left|].
        right. exists kws'. split; [by right | done].
      * intros [?|(kws' & [[= -> ->]|?]%elem_of_cons & ?)];
          [by left | congruence | eauto].
Qed.

Lemma scan_topics_nil table text :
  scan_topics table text [] = [] ↔
  ∀ topic kws, (topic, kws) ∈ table → any_keyword_in kws text = false.
Proof.
  split.
  - intros Hnil topic kws Hin.
    destruct (any_keyword_in kws text) eqn:Hany; [|done].
    assert (topic ∈ scan_topics table text []) as Ht
      by (apply scan_topics_elem; eauto).
    rewrite Hnil in Ht. by apply elem_of_nil in Ht.
  - intros Hall. destruct (scan_topics table text []) as [|t l] eqn:Hscan; [done|].
    assert (t ∈ scan_topics table text []) as Ht by (rewrite Hscan; left).
    apply scan_topics_elem in Ht as [[]%elem_of_nil|(kws & Hin & Hany)].
    by rewrite (Hall _ _ Hin) in Hany.
Qed.

(** General is not one of the keyword buckets. *)
Lemma General_not_a_bucket (kws : list string) :
  ("General", kws) ∉ topic_keywords.
Proof.
  unfold topic_keywords. intros H.
  repeat (apply elem_of_cons in H as [[=]|H]).
  by apply elem_of_nil in H.
Qed.

Lemma extract_topics_scan (text : string) :
  extract_topics text = ["General"] ↔
  scan_topics topic_keywords (Py.lower text) [] = [].
Proof.
  unfold extract_topics.
  destruct (scan_topics topic_keywords (Py.lower text) []) as [|t l] eqn:Hscan;
    [done|].
  split; [|done]. intros [= -> ->].
  assert ("General" ∈ scan_topics topic_keywords (Py.lower text) []) as Ht
    by (rewrite Hscan; left).
  apply scan_topics_elem in Ht as [[]%elem_of_nil|(kws & Hin & _)].
  by apply General_not_a_bucket in Hin.
Qed.

Lemma general_iff_no_keyword (text : string) :
  extract_topics text = ["General"] ↔
  ∀ k, is_keyword k → ¬ occurs_in k (Py.lower text).
Proof.
  rewrite extract_topics_scan, scan_topics_nil. split.
  - intros Hall k (topic & kws & Hin & Hk) Hocc.
    assert (any_keyword_in kws (Py.lower text) = true) as Hany
      by (apply any_keyword_in_true; eauto).
    by rewrite (Hall _ _ Hin) in Hany.
  - intros Hall topic kws Hin.
    destruct (any_keyword_in kws (Py.lower text)) eqn:Hany; [|done].
    apply any_keyword_in_true in Hany as (k & Hk & Hocc).
    destruct (Hall k); [by exists topic, kws | done].
Qed.

Lemma extract_topics_nonempty (text : string) : extract_topics text ≠ [].
Proof.
  unfold extract_topics.
  by destruct (scan_topics topic_keywords (Py.lower text) []).
Qed.

(** Every keyword of the taxonomy has a character that is not blank. *)
Lemma keyword_not_blank (k : string) :
  is_keyword k → ∃ c, c ∈ chars k ∧ is_whitespace c = false.
Proof.
  intros (topic & kws & Hin & Hk).
  assert (existsb (fun c => negb (is_whitespace c)) (chars k) = true) as Hex.
  { unfold topic_keywords in Hin.
    repeat (apply elem_of_cons in Hin as [[= -> ->]|Hin];
            [repeat (apply elem_of_cons in Hk as [->|Hk]; [reflexivity|]);
             by apply elem_of_nil in Hk|]).
    by apply elem_of_nil in Hin. }
  apply existsb_exists in Hex as (c & Hc%list_elem_of_In & Hns).
  exists c. split; [done|]. by destruct (is_whitespace c).
Qed.

Lemma whitespace_no_keyword (text k : string) :
  whitespace_only text → is_keyword k → ¬ occurs_in k (Py.lower text).
Proof.
  intros Hws%lower_whitespace_only (c & Hc & Hns)%keyword_not_blank
    Hocc%contains_spec%contains_chars.
  unfold whitespace_only in Hws. rewrite Forall_forall in Hws.
  apply Hocc, Hws in Hc. congruence.
Qed.

End classifier.

(** ** Insertion-ordered dicts *)

Section dicts.
Context {V : Type}.
Implicit Types (k : string) (v : V) (d : list (string * V)).

Lemma dict_get_set_eq k v d : Py.dict_get k (Py.dict_set k v d) = Some v.
Proof.
  induction d as [|[k' v'] d IH]; simpl.
  - by rewrite decide_True.
  - destruct (decide (k = k')); simpl.
    + by rewrite decide_True.
    + by rewrite decide_False.
Qed.

Lemma dict_get_set_ne k k' v d :
  k ≠ k' → Py.dict_get k' (Py.dict_set k v d) = Py.dict_get k' d.
Proof.
  intros Hne. induction d as [|[k0 v0] d IH]; simpl.
  - by rewrite decide_False.
  - destruct (decide (k = k0)) as [->|]; simpl.
    + by rewrite !decide_False.
    + destruct (decide (k' = k0)); [done | apply IH].
Qed.

Lemma dict_get_keys k d : is_Some (Py.dict_get k d) ↔ k ∈ d.*1.
Proof.
  induction d as [|[k' v'] d IH]; simpl.
  - split; [by intros [? ?] | by intros ?%elem_of_nil].
  - rewrite elem_of_cons. destruct (decide (k = k')); [by split; eauto|].
    rewrite IH. tauto.
Qed.

Lemma dict_get_elem k v d :
  NoDup d.*1 → (k, v) ∈ d ↔ Py.dict_get k d = Some v.
Proof.
  induction d as [|[k' v'] d IH]; simpl; intros Hnd.
  - split; [by intros ?%elem_of_nil | done].
  - apply NoDup_cons in Hnd as [Hk' Hnd]. rewrite elem_of_cons.
    destruct (decide (k = k')) as [->|Hne].
    + split; [|intros [= ->]; by left].
      intros [[= ->]|Hin]; [done|].
      destruct Hk'. apply list_elem_of_fmap. by exists (k', v).
    + rewrite <- (IH Hnd). split; [intros [[= ? ?]|?]; done | by right].
Qed.

Lemma dict_set_fresh k v d :
  Py.dict_get k d = None → Py.dict_set k v d = d ++ [(k, v)].
Proof.
  induction d as [|[k' v'] d IH]; simpl; [done|].
  destruct (decide (k = k')); [done|]. intros H. by rewrite IH.
Qed.

Lemma dict_set_keys k v d :
  (Py.dict_set k v d).*1 = if decide (k ∈ d.*1) then d.*1 else d.*1 ++ [k].
Proof.
  induction d as [|[k' v'] d IH].
  - simpl. by destruct (decide (k ∈ [])) as [?%elem_of_nil|].
  - cbn [Py.dict_set fmap list_fmap fst].
    destruct (decide (k = k')) as [->|Hne].
    + rewrite decide_True; [done | left].
    + cbn [fmap list_fmap fst]. rewrite IH. destruct (decide (k ∈ d.*1)).
      * rewrite decide_True; [done | by right].
      * rewrite decide_False; [done|]. rewrite elem_of_cons. tauto.
Qed.

Lemma dict_set_NoDup k v d : NoDup d.*1 → NoDup (Py.dict_set k v d).*1.
Proof.
  intros Hnd. rewrite dict_set_keys. destruct (decide (k ∈ d.*1)); [done|].
  apply NoDup_app. split_and!; [done | | apply NoDup_singleton].
  intros x Hx ->%list_elem_of_singleton. done.
Qed.

End dicts.

(** ** The sentiment tally *)

Section tally.
Implicit Types (k : string) (d : list (string * nat)) (l : list article).

Lemma dict_set_sum k (v : nat) d :
  sum_list (Py.dict_set k v d).*2 + default 0 (Py.dict_get k d) =
  sum_list d.*2 + v.
Proof.
  induction d as [|[k' v'] d IH]; simpl in *; [lia|].
  destruct (decide (k = k')); simpl in *; [lia|].
  unfold fmap in IH. lia.
Qed.

Lemma count_sentiment_sum d a :
  sum_list (count_sentiment d a).*2 = sum_list d.*2 + 1.
Proof.
  unfold count_sentiment.
  pose proof (dict_set_sum (get_sentiment a)
    (default 0 (Py.dict_get (get_sentiment a) d) + 1) d). lia.
Qed.

Lemma tally_sum d l :
  sum_list (foldl count_sentiment d l).*2 = sum_list d.*2 + length l.
Proof.
  revert d. induction l as [|a l IH]; intros d; simpl; [lia|].
  rewrite IH, count_sentiment_sum. lia.
Qed.

Lemma tally_NoDup d l : NoDup d.*1 → NoDup (foldl count_sentiment d l).*1.
Proof.
  revert d. induction l as [|a l IH]; intros d Hnd; simpl; [done|].
  apply IH. by apply dict_set_NoDup.
Qed.

Lemma tally_count k d l :
  default 0 (Py.dict_get k (foldl count_sentiment d l)) =
  default 0 (Py.dict_get k d) + count_label k l.
Proof.
  revert d. induction l as [|a l IH]; intros d; simpl.
  - unfold count_label. simpl. lia.
  - rewrite IH. unfold count_sentiment, count_label.
    destruct (decide (get_sentiment a = k)) as [<-|Hne].
    + rewrite dict_get_set_eq, filter_cons_True by done. simpl. lia.
    + rewrite dict_get_set_ne, filter_cons_False by done. done.
Qed.

Lemma tally_keys k d l :
  k ∈ (foldl count_sentiment d l).*1 ↔
  k ∈ d.*1 ∨ k ∈ get_sentiment <$> l.
Proof.
  revert d. induction l as [|a l IH]; intros d; simpl.
  - rewrite elem_of_nil. tauto.
  - rewrite IH, elem_of_cons. unfold count_sentiment.
    rewrite dict_set_keys. destruct (decide (get_sentiment a ∈ d.*1)).
    + intuition (subst; auto).
    + rewrite elem_of_app, list_elem_of_singleton. tauto.
Qed.

Lemma count_label_pos k l : k ∈ get_sentiment <$> l ↔ 0 < count_label k l.
Proof.
  unfold count_label. induction l as [|a l IH].
  - simpl. rewrite elem_of_nil. lia.
  - rewrite fmap_cons, elem_of_cons, IH, filter_cons. case_decide; simpl.
    + split; [lia | auto].
    + intuition (subst; done).
Qed.

Lemma tally_lookup k l :
  Py.dict_get k (foldl count_sentiment [] l) =
  if decide (k ∈ get_sentiment <$> l) then Some (count_label k l) else None.
Proof.
  pose proof (tally_count k [] l) as Hc. pose proof (tally_keys k [] l) as Hk.
  rewrite <- dict_get_keys in Hk. simpl in *.
  rewrite elem_of_nil in Hk.
  destruct (decide (k ∈ get_sentiment <$> l)) as [Hin|Hin].
  - destruct (proj2 Hk (or_intror Hin)) as [n Hn].
    rewrite Hn in *. simpl in Hc. by rewrite Hc.
  - destruct (Py.dict_get k (foldl count_sentiment [] l)) eqn:Hn; [|done].
    destruct Hin. by destruct (proj1 Hk (mk_is_Some _ _ eq_refl)).
Qed.

End tally.

(** ** The topic loop and the overlap statistics *)

Section topics.
Implicit Types (t : string) (l : list article) (per : list (list string)).

Lemma topic_loop_from st l :
  foldl topic_step st l =
  {| visited := visited st ++ (retag <$> l);
     article_topics := article_topics st ++ (derived_topics <$> l);
     all_topics :=
       all_topics st ∪ ⋃ ((fun a => list_to_set (derived_topics a)) <$> l) |}.
Proof.
  revert st. induction l as [|a l IH]; intros st.
  - destruct st. simpl. rewrite !app_nil_r. f_equal.
    by rewrite (right_id_L ∅ (∪)).
  - simpl foldl. rewrite IH. unfold topic_step at 1 2 3. simpl.
    rewrite <- !app_assoc. f_equal. by rewrite (assoc_L (∪)).
Qed.

Lemma topic_loop_visited l : visited (topic_loop l) = retag <$> l.
Proof. unfold topic_loop. by rewrite topic_loop_from. Qed.

Lemma topic_loop_article_topics l :
  article_topics (topic_loop l) = derived_topics <$> l.
Proof. unfold topic_loop. by rewrite topic_loop_from. Qed.

Lemma topic_loop_all_topics l t :
  t ∈ all_topics (topic_loop l) ↔ ∃ a, a ∈ l ∧ t ∈ derived_topics a.
Proof.
  unfold topic_loop. rewrite topic_loop_from. simpl.
  rewrite elem_of_union, elem_of_union_list. split.
  - intros [[]%not_elem_of_empty|(X & (a & -> & Ha)%list_elem_of_fmap & Ht)].
    exists a. split; [done|]. by apply elem_of_list_to_set in Ht.
  - intros (a & Ha & Ht). right. exists (list_to_set (derived_topics a)).
    split; [|by apply elem_of_list_to_set].
    apply list_elem_of_fmap. by exists a.
Qed.

Lemma common_of_elem (all : gset string) per t :
  t ∈ common_of all per ↔ t ∈ all ∧ ∀ ts, ts ∈ per → t ∈ ts.
Proof.
  unfold common_of. revert all. induction per as [|ts per IH]; intros all; simpl.
  - split; [|tauto]. intros ?. split; [done|]. by intros ? ?%elem_of_nil.
  - rewrite IH, elem_of_intersection, elem_of_list_to_set. split.
    + intros [[? ?] Hper]. split; [done|].
      intros ts' [->|?]%elem_of_cons; auto.
    + intros [? Hper]. split_and!; [done| |].
      * apply Hper. left.
      * intros ts' ?. apply Hper. by right.
Qed.

Lemma dict_set_loop (g : string → nat) (keys : list string)
    (acc : list (string * nat)) :
  NoDup keys → (∀ k, k ∈ keys → k ∉ acc.*1) →
  foldl (fun freq k => Py.dict_set k (g k) freq) acc keys =
  acc ++ ((fun k => (k, g k)) <$> keys).
Proof.
  revert acc. induction keys as [|k keys IH]; intros acc Hnd Hfresh; simpl.
  - by rewrite app_nil_r.
  - apply NoDup_cons in Hnd as [Hk Hnd].
    rewrite dict_set_fresh.
    + rewrite IH; [by rewrite <- app_assoc | done |].
      intros k' Hk'. rewrite fmap_app, elem_of_app. simpl.
      rewrite list_elem_of_singleton. intros [?| ->]; [|done].
      eapply Hfresh; [by right | done].
    + destruct (Py.dict_get k acc) eqn:Hget; [|done].
      destruct (Hfresh k); [left|]. apply dict_get_keys. by rewrite Hget.
Qed.

Lemma frequency_of_eq (all : gset string) per :
  frequency_of all per = (fun t => (t, topic_count t per)) <$> elements all.
Proof.
  unfold frequency_of. rewrite dict_set_loop; [done | apply NoDup_elements |].
  intros k _. apply not_elem_of_nil.
Qed.

Lemma dict_get_table (g : string → nat) (keys : list string) t :
  Py.dict_get t ((fun k => (k, g k)) <$> keys) =
  if decide (t ∈ keys) then Some (g t) else None.
Proof.
  induction keys as [|k keys IH].
  - simpl. by destruct (decide (t ∈ [])) as [?%elem_of_nil|].
  - rewrite fmap_cons. cbn [Py.dict_get]. destruct (decide (t = k)) as [->|Hne].
    + rewrite decide_True; [done | left].
    + rewrite IH. destruct (decide (t ∈ keys)).
      * rewrite decide_True; [done | by right].
      * rewrite decide_False; [done|]. rewrite elem_of_cons. tauto.
Qed.

Lemma subset_topics_from (acc : gset string) l t :
  t ∈ foldl (fun acc a => acc ∪ list_to_set (default [] (topics a))) acc l ↔
  t ∈ acc ∨ ∃ a, a ∈ l ∧ t ∈ default [] (topics a).
Proof.
  revert acc. induction l as [|a l IH]; intros acc; simpl.
  - split; [auto | intros [?|(? & []%elem_of_nil & _)]; done].
  - rewrite IH, elem_of_union, elem_of_list_to_set. split.
    + intros [[?|?]|(a' & ? & ?)]; [by left | |].
      * right. exists a. split; [left | done].
      * right. exists a'. split; [by right | done].
    + intros [?|(a' & [->|?]%elem_of_cons & ?)]; eauto.
Qed.

Lemma subset_topics_elem l t :
  t ∈ subset_topics l ↔ ∃ a, a ∈ l ∧ t ∈ default [] (topics a).
Proof.
  unfold subset_topics. rewrite subset_topics_from, elem_of_empty. tauto.
Qed.

End topics.

(** ** The dominant sentiment *)

Section dominant.
Implicit Types (d : list (string * nat)).

Lemma max_from_spec best best_v d :
  ∃ n, ((Py.max_from best best_v d, n) = (best, best_v) ∨
        (Py.max_from best best_v d, n) ∈ d) ∧
       best_v ≤ n ∧ ∀ k v, (k, v) ∈ d → v ≤ n.
Proof.
  revert best best_v. induction d as [|[k v] d IH]; intros best best_v; simpl.
  - exists best_v. split_and!; [by left | done |]. by intros ? ? ?%elem_of_nil.
  - destruct (Nat.ltb_spec best_v v) as [Hlt|Hge].
    + destruct (IH k v) as (n & Hn & Hle & Hall). exists n. split_and!.
      * right. destruct Hn as [->|?]; [left | by right].
      * lia.
      * intros k' v' [[= -> ->]|?]%elem_of_cons; eauto.
    + destruct (IH best best_v) as (n & Hn & Hle & Hall). exists n. split_and!.
      * destruct Hn as [?|?]; [by left | right; by right].
      * done.
      * intros k' v' [[= -> ->]|?]%elem_of_cons; [lia | eauto].
Qed.

Lemma max_key_spec d m :
  NoDup d.*1 → Py.max_key d = Some m →
  ∃ n, Py.dict_get m d = Some n ∧ ∀ k v, Py.dict_get k d = Some v → v ≤ n.
Proof.
  intros Hnd Hmax. destruct d as [|[k v] d]; [done|].
  injection Hmax as <-.
  destruct (max_from_spec k v d) as (n & Hn & Hle & Hall).
  exists n. split.
  - apply dict_get_elem; [done|].
    destruct Hn as [->|?]; [left | by right].
  - intros k' v' [[= -> ->]|?]%dict_get_elem%elem_of_cons; [done | eauto | done].
Qed.

Lemma max_key_is_Some d : d ≠ [] → is_Some (Py.max_key d).
Proof. destruct d as [|[k v] d]; [done|]. intros _. simpl. eauto. Qed.

End dominant.

(** ** The gate of the coverage differences *)

Section gate.
Implicit Types (l : list article).

Lemma size_ge_2 (X : gset string) :
  2 ≤ size X ↔ ∃ x y, x ∈ X ∧ y ∈ X ∧ x ≠ y.
Proof.
  split.
  - intros Hsize.
    destruct (set_choose_L X) as [x Hx].
    { intros ->. rewrite size_empty in Hsize. lia. }
    destruct (set_choose_L (X ∖ {[x]})) as [y Hy].
    { intros Hempty. assert (size (X ∖ {[x]}) = 0) as H0
        by (rewrite Hempty; apply size_empty).
      rewrite size_difference, size_singleton in H0; [lia|].
      by apply singleton_subseteq_l. }
    apply elem_of_difference in Hy as [Hy Hne].
    rewrite elem_of_singleton in Hne. exists x, y. auto.
  - intros (x & y & Hx & Hy & Hne).
    assert (({[x]} ∪ {[y]} : gset string) ⊆ X) as Hsub.
    { apply union_subseteq. split; by apply singleton_subseteq_l. }
    apply subseteq_size in Hsub.
    rewrite size_union, !size_singleton in Hsub; [lia|].
    by apply disjoint_singleton_l, not_elem_of_singleton.
Qed.

Lemma distinct_labels_ge_2 l :
  2 ≤ size (list_to_set (get_sentiment <$> l) : gset string) ↔
  ∃ a b, a ∈ l ∧ b ∈ l ∧ get_sentiment a ≠ get_sentiment b.
Proof.
  rewrite size_ge_2. setoid_rewrite elem_of_list_to_set.
  setoid_rewrite list_elem_of_fmap. split.
  - intros (x & y & (a & -> & Ha) & (b & -> & Hb) & Hne). eauto.
  - intros (a & b & Ha & Hb & Hne).
    exists (get_sentiment a), (get_sentiment b). eauto 10.
Qed.

Lemma labels_retag l : get_sentiment <$> (retag <$> l) = get_sentiment <$> l.
Proof. rewrite <- list_fmap_compose. by apply list_fmap_ext. Qed.

Lemma filter_retag (label : string) l :
  filter (has_sentiment label) (retag <$> l) =
  retag <$> filter (has_sentiment label) l.
Proof.
  induction l as [|a l IH]; [done|].
  rewrite fmap_cons, !filter_cons.
  destruct (decide (has_sentiment label (retag a))) as [H|H];
    (destruct (decide (has_sentiment label a)) as [H'|H'];
     [|]; try (by destruct H); try (by destruct H')).
  - by rewrite fmap_cons, IH.
  - done.
Qed.

Lemma filter_nonempty (label : string) l :
  filter (has_sentiment label) l ≠ [] ↔ ∃ a, a ∈ l ∧ sentiment a = Some label.
Proof.
  split.
  - destruct (filter (has_sentiment label) l) as [|a l'] eqn:Hf; [done|].
    intros _. exists a.
    assert (a ∈ filter (has_sentiment label) l) as Hin by (rewrite Hf; left).
    apply list_elem_of_filter in Hin as [? ?]. done.
  - intros (a & Ha & Hs) Hnil.
    assert (a ∈ filter (has_sentiment label) l) as Hin
      by (by apply list_elem_of_filter).
    rewrite Hnil in Hin. by apply elem_of_nil in Hin.
Qed.

End gate.

(** ** The result of the engine, field by field *)

Section engine.
Implicit Types (articles : list article) (t : string).

Lemma articles_after_eq articles : articles_after articles = retag <$> articles.
Proof.
  destruct articles as [|a l]; [done|].
  unfold articles_after, comparative_analysis. cbn [fst].
  apply topic_loop_visited.
Qed.

Lemma analyze_sentiment_distribution articles :
  sentiment_distribution (analyze articles) = foldl count_sentiment [] articles.
Proof. by destruct articles. Qed.

Lemma analyze_coverage articles :
  coverage_differences (analyze articles) =
  coverage (retag <$> articles) (foldl count_sentiment [] articles).
Proof.
  destruct articles as [|a l]; [done|].
  unfold analyze, comparative_analysis. cbn [snd coverage_differences].
  by rewrite topic_loop_visited.
Qed.

Lemma analyze_overlap articles :
  articles ≠ [] →
  topic_overlap (analyze articles) =
  [ ("common_topics",
       TopicList (elements (common_of (all_topics (topic_loop articles))
                                      (derived_topics <$> articles))));
    ("all_topics", TopicList (elements (all_topics (topic_loop articles))));
    ("topic_frequency",
       TopicCount (frequency_of (all_topics (topic_loop articles))
                                (derived_topics <$> articles))) ].
Proof.
  destruct articles as [|a l]; [done|]. intros _.
  unfold analyze, comparative_analysis. cbn [snd topic_overlap].
  by rewrite topic_loop_article_topics.
Qed.

Lemma common_topics_of_nonempty articles :
  articles ≠ [] →
  common_topics_of (analyze articles) =
  elements (common_of (all_topics (topic_loop articles))
                      (derived_topics <$> articles)).
Proof. intros H. unfold common_topics_of. by rewrite analyze_overlap. Qed.

Lemma all_topics_of_nonempty articles :
  articles ≠ [] →
  all_topics_of (analyze articles) = elements (all_topics (topic_loop articles)).
Proof. intros H. unfold all_topics_of. by rewrite analyze_overlap. Qed.

Lemma topic_frequency_of_nonempty articles :
  articles ≠ [] →
  topic_frequency_of (analyze articles) =
  (fun t => (t, topic_count t (derived_topics <$> articles))) <$>
    elements (all_topics (topic_loop articles)).
Proof.
  intros H. unfold topic_frequency_of.
  by rewrite analyze_overlap, frequency_of_eq.
Qed.

Lemma topic_count_articles t articles :
  topic_count t (derived_topics <$> articles) =
  length (filter (fun a => t ∈ derived_topics a) articles).
Proof.
  unfold topic_count. induction articles as [|a l IH]; [done|].
  rewrite fmap_cons, !filter_cons.
  destruct (decide (t ∈ derived_topics a)); simpl; by rewrite IH.
Qed.

Lemma analysis_eq (r1 r2 : analysis) :
  sentiment_distribution r1 = sentiment_distribution r2 →
  topic_overlap r1 = topic_overlap r2 →
  coverage_differences r1 = coverage_differences r2 →
  r1 = r2.
Proof. destruct r1, r2; simpl; congruence. Qed.

Lemma tally_untagged d articles :
  foldl count_sentiment d (untagged <$> articles) =
  foldl count_sentiment d articles.
Proof.
  revert d. induction articles as [|a l IH]; intros d; [done|].
  simpl. by rewrite IH.
Qed.

Lemma retag_untagged articles :
  retag <$> (untagged <$> articles) = retag <$> articles.
Proof. rewrite <- list_fmap_compose. by apply list_fmap_ext. Qed.

Lemma derived_untagged articles :
  derived_topics <$> (untagged <$> articles) = derived_topics <$> articles.
Proof. rewrite <- list_fmap_compose. by apply list_fmap_ext. Qed.

Lemma topic_loop_untagged articles :
  topic_loop (untagged <$> articles) = topic_loop articles.
Proof.
  unfold topic_loop. rewrite !topic_loop_from.
  rewrite retag_untagged, derived_untagged. do 3 f_equal.
  rewrite <- list_fmap_compose. by apply list_fmap_ext.
Qed.

Lemma analyze_untagged articles :
  analyze (untagged <$> articles) = analyze articles.
Proof.
  destruct (decide (articles = [])) as [->|Hne]; [done|].
  assert (untagged <$> articles ≠ []) as Hne' by (by destruct articles).
  apply analysis_eq.
  - by rewrite !analyze_sentiment_distribution, tally_untagged.
  - by rewrite !analyze_overlap, topic_loop_untagged, derived_untagged.
  - by rewrite !analyze_coverage, tally_untagged, retag_untagged.
Qed.

End engine.

(** ** Properties of the specification *)

(** C1, as stated, fails: for the empty article list the engine does not
    return the record whose topic overlap holds three empty fields; the
    topic overlap it returns has no field at all. *)
Lemma analyze_empty_not_spec_record : analyze [] ≠ degenerate_result_spec.
Proof. discriminate. Qed.

(** C1, amended: for the empty article list the first branch of
    [comparative_analysis] returns at once, leaving the (empty) list as it
    is; the sentiment distribution is empty, the coverage differences are
    empty, and the topic overlap is the empty dict, in which none of
    [common_topics], [all_topics] and [topic_frequency] is present, so that
    each of them reads as empty only through a guarded read. *)
Theorem analyze_empty :
  comparative_analysis [] =
    ([], {| sentiment_distribution := [];
            topic_overlap := [];
            coverage_differences := [] |}) ∧
  Py.dict_get "common_topics" (topic_overlap (analyze [])) = None ∧
  Py.dict_get "all_topics" (topic_overlap (analyze [])) = None ∧
  Py.dict_get "topic_frequency" (topic_overlap (analyze [])) = None ∧
  common_topics_of (analyze []) = [] ∧
  all_topics_of (analyze []) = [] ∧
  topic_frequency_of (analyze []) = [].
Proof. by repeat split. Qed.



(** C3: the counts of the sentiment distribution add up to the number of
    articles, its keys are exactly the sentiment labels of the articles (the
    label of an article being its [sentiment], or [Unknown] when that is
    missing), and no count is zero. *)
Theorem sentiment_distribution_sound (articles : list article) :
  sum_list (sentiment_distribution (analyze articles)).*2 = length articles ∧
  (∀ k, k ∈ (sentiment_distribution (analyze articles)).*1 ↔
        k ∈ get_sentiment <$> articles) ∧
  Forall (fun kv => 0 < kv.2) (sentiment_distribution (analyze articles)).
Proof.
  rewrite analyze_sentiment_distribution. split_and!.
  - by rewrite tally_sum.
  - intros k. rewrite tally_keys, elem_of_nil. tauto.
  - apply Forall_forall. intros [k v] Hin. simpl.
    apply dict_get_elem in Hin; [|apply tally_NoDup, NoDup_nil_2].
    rewrite tally_lookup in Hin.
    destruct (decide (k ∈ get_sentiment <$> articles)) as [Hk|]; [|done].
    injection Hin as <-. by apply count_label_pos.
Qed.

(** C4: every key of the topic frequency is one of the topics of
    [all_topics], and every common topic is one of them too. *)
Theorem topic_overlap_invariant (articles : list article) :
  (topic_frequency_of (analyze articles)).*1 ⊆ all_topics_of (analyze articles) ∧
  common_topics_of (analyze articles) ⊆ all_topics_of (analyze articles).
Proof.
  destruct (decide (articles = [])) as [->|Hne]; [done|].
  rewrite topic_frequency_of_nonempty, common_topics_of_nonempty,
    all_topics_of_nonempty by done.
  split.
  - rewrite <- list_fmap_compose. intros t. by rewrite list_fmap_id.
  - intros t. rewrite !elem_of_elements, common_of_elem. tauto.
Qed.

(** C5: for a non-empty article list the engine derives the topics of every
    article from its title and summary, whatever topics were attached
    before; [all_topics] is the union of the derived topic sets,
    [common_topics] their intersection, and [topic_frequency] maps each
    topic of [all_topics], and nothing else, to the number of articles whose
    derived topics contain it. *)
Theorem topic_overlap_correct (articles : list article) :
  articles ≠ [] →
  articles_after articles = retag <$> articles ∧
  analyze (untagged <$> articles) = analyze articles ∧
  (∀ t, t ∈ all_topics_of (analyze articles) ↔
        ∃ a, a ∈ articles ∧ t ∈ derived_topics a) ∧
  (∀ t, t ∈ common_topics_of (analyze articles) ↔
        ∀ a, a ∈ articles → t ∈ derived_topics a) ∧
  (∀ t, Py.dict_get t (topic_frequency_of (analyze articles)) =
        if decide (t ∈ all_topics_of (analyze articles))
        then Some (length (filter (fun a => t ∈ derived_topics a) articles))
        else None).
Proof.
  intros Hne.
  rewrite topic_frequency_of_nonempty, common_topics_of_nonempty,
    all_topics_of_nonempty by done.
  split_and!.
  - apply articles_after_eq.
  - apply analyze_untagged.
  - intros t. by rewrite elem_of_elements, topic_loop_all_topics.
  - intros t. rewrite elem_of_elements, common_of_elem, topic_loop_all_topics.
    split.
    + intros [_ Hall] a Ha. apply Hall, list_elem_of_fmap. by exists a.
    + intros Hall. split.
      * destruct articles as [|a l]; [done|]. exists a. split; [left|].
        apply Hall. left.
      * intros ts (a & -> & Ha)%list_elem_of_fmap. by apply Hall.
  - intros t.
    rewrite (dict_get_table (fun t => topic_count t (derived_topics <$> articles))).
    by rewrite topic_count_articles.
Qed.

Lemma topic_overlap_correct_witness :
  [a_pos; a_neg] ≠ [] ∧
  ∀ t, t ∈ common_topics_of (analyze [a_pos; a_neg]) ↔
       ∀ a, a ∈ [a_pos; a_neg] → t ∈ derived_topics a.
Proof.
  split; [discriminate|].
  apply (topic_overlap_correct [a_pos; a_neg]). discriminate.
Defined.

(** ** The coverage differences *)

Section coverage.
Implicit Types (l : list article).

Lemma two_distinct_length l (a b : article) :
  a ∈ l → b ∈ l → a ≠ b → 2 ≤ length l.
Proof.
  destruct l as [|x [|y l]]; simpl; [by intros ?%elem_of_nil | | lia].
  intros ->%list_elem_of_singleton ->%list_elem_of_singleton. done.
Qed.

Lemma tally_nonempty l : l ≠ [] → foldl count_sentiment [] l ≠ [].
Proof.
  intros Hne Hnil. pose proof (tally_sum [] l) as Hsum.
  rewrite Hnil in Hsum. destruct l; [done|]. simpl in Hsum. lia.
Qed.

Lemma subset_topics_retag (label : string) l :
  subset_topics (filter (has_sentiment label) (retag <$> l)) =
  label_topics label l.
Proof.
  apply set_eq. intros t. unfold label_topics.
  rewrite subset_topics_elem, filter_retag, elem_of_union_list. split.
  - intros (a' & (a & -> & Ha)%list_elem_of_fmap & Ht). simpl in Ht.
    exists (list_to_set (derived_topics a)).
    split; [|by apply elem_of_list_to_set].
    apply list_elem_of_fmap. by exists a.
  - intros (X & (a & -> & Ha)%list_elem_of_fmap & Ht%elem_of_list_to_set).
    exists (retag a). split; [|done]. apply list_elem_of_fmap. by exists a.
Qed.

Lemma coverage_closed l (counts : list (string * nat)) :
  ¬ (2 ≤ length l ∧
     ∃ a b, a ∈ l ∧ b ∈ l ∧ get_sentiment a ≠ get_sentiment b) →
  coverage (retag <$> l) counts = [].
Proof.
  intros Hgate. unfold coverage. rewrite length_fmap, labels_retag.
  destruct (Nat.leb_spec 2 (length l)) as [Hlen|]; [|done].
  destruct (Nat.leb_spec 2 (size (list_to_set (get_sentiment <$> l) : gset string)))
    as [Hsize|]; [|done].
  destruct Hgate. split; [done|]. by apply distinct_labels_ge_2.
Qed.

Lemma coverage_open l :
  2 ≤ length l →
  (∃ a b, a ∈ l ∧ b ∈ l ∧ get_sentiment a ≠ get_sentiment b) →
  ∃ m, Py.max_key (foldl count_sentiment [] l) = Some m ∧
    coverage (retag <$> l) (foldl count_sentiment [] l) =
    match filter (has_sentiment "Positive") l,
          filter (has_sentiment "Negative") l with
    | _ :: _, _ :: _ =>
        [contrast_item (filter (has_sentiment "Positive") (retag <$> l))
                       (filter (has_sentiment "Negative") (retag <$> l))]
    | _, _ => []
    end ++ [trend_item m].
Proof.
  intros Hlen Hlabels.
  destruct (max_key_is_Some (foldl count_sentiment [] l)) as [m Hm].
  { apply tally_nonempty. intros ->. simpl in Hlen. lia. }
  unfold coverage. rewrite length_fmap, labels_retag.
  apply Nat.leb_le in Hlen as ->.
  apply distinct_labels_ge_2, Nat.leb_le in Hlabels as ->.
  exists m. split; [done|]. rewrite Hm, !filter_retag.
  destruct (filter (has_sentiment "Positive") l),
    (filter (has_sentiment "Negative") l); done.
Qed.

End coverage.

(** C6: the coverage differences are non-empty exactly when there are at
    least two articles and at least two distinct sentiment labels among
    them; a single article, or articles that all bear the same sentiment,
    give none. *)
Theorem coverage_gate (articles : list article) :
  (coverage_differences (analyze articles) ≠ [] ↔
   2 ≤ length articles ∧
   ∃ a b, a ∈ articles ∧ b ∈ articles ∧ get_sentiment a ≠ get_sentiment b) ∧
  (length articles = 1 → coverage_differences (analyze articles) = []) ∧
  ((∀ a b, a ∈ articles → b ∈ articles → get_sentiment a = get_sentiment b) →
   coverage_differences (analyze articles) = []).
Proof.
  rewrite analyze_coverage. split_and!.
  - split.
    + intros Hne.
      destruct (decide (2 ≤ length articles)) as [Hlen|Hlen].
      * split; [done|].
        destruct (decide (2 ≤ size (list_to_set (get_sentiment <$> articles)
                                      : gset string))) as [Hs|Hs];
          [by apply distinct_labels_ge_2|].
        destruct Hne. apply coverage_closed.
        intros [_ ?%distinct_labels_ge_2]. done.
      * destruct Hne. apply coverage_closed. tauto.
    + intros [Hlen Hlabels].
      destruct (coverage_open articles Hlen Hlabels) as (m & _ & ->).
      intros Hnil. apply app_eq_nil in Hnil as [_ ?]. done.
  - intros Hlen. apply coverage_closed. lia.
  - intros Hsame. apply coverage_closed.
    intros [_ (a & b & Ha & Hb & Hne)]. destruct Hne. by apply Hsame.
Qed.

Lemma coverage_gate_witness :
  length [a_neg] = 1 ∧ coverage_differences (analyze [a_neg]) = [].
Proof.
  split; [reflexivity|].
  apply (proj1 (proj2 (coverage_gate [a_neg]))). reflexivity.
Defined.

Lemma label_topics_elem (label : string) (articles : list article)
    (t : string) :
  t ∈ label_topics label articles ↔
  ∃ a, a ∈ articles ∧ sentiment a = Some label ∧ t ∈ derived_topics a.
Proof.
  unfold label_topics. rewrite elem_of_union_list. split.
  - intros (X & (a & -> & [Hs Ha]%list_elem_of_filter)%list_elem_of_fmap
              & Ht%elem_of_list_to_set).
    by exists a.
  - intros (a & Ha & Hs & Ht). exists (list_to_set (derived_topics a)).
    split; [|by apply elem_of_list_to_set].
    apply list_elem_of_fmap. exists a. split; [done|].
    by apply list_elem_of_filter.
Qed.

Lemma focus_phrase_listing (s : gset string) :
  focus_phrase s =
  if decide (elements s = []) then "various topics"
  else Py.join ", " (elements s).
Proof.
  unfold focus_phrase. destruct (decide (s = ∅)) as [->|Hne].
  - by rewrite elements_empty.
  - rewrite decide_False; [done|].
    intros Hnil. apply Hne. by apply leibniz_equiv, elements_empty_iff.
Qed.

(** C7: when some article is Positive and some article is Negative, the
    gate is open and the engine emits exactly two comparisons. The first
    lists, in some order and without repetition, the topics found among the
    Positive articles and not among the Negative ones, then likewise the
    topics found only among the Negative articles; a list is given by its
    topics separated by ", " (a single topic stands alone, further ones
    follow after ", "), or by the phrase "various topics" when there is
    none; the impact is a fixed sentence. The second names the dominant
    sentiment, a label whose count no other count exceeds. *)
Theorem coverage_positive_negative (articles : list article) :
  (∃ a, a ∈ articles ∧ sentiment a = Some "Positive") →
  (∃ a, a ∈ articles ∧ sentiment a = Some "Negative") →
  (2 ≤ length articles ∧
   ∃ a b, a ∈ articles ∧ b ∈ articles ∧ get_sentiment a ≠ get_sentiment b) ∧
  ((∀ x, Py.join ", " [x] = x) ∧
   (∀ x y l, Py.join ", " (x :: y :: l) =
             x +:+ ", " +:+ Py.join ", " (y :: l))) ∧
  ∃ pos_unique neg_unique max_sentiment n,
    NoDup pos_unique ∧ NoDup neg_unique ∧
    (∀ t, t ∈ pos_unique ↔
       (∃ a, a ∈ articles ∧ sentiment a = Some "Positive" ∧
             t ∈ derived_topics a) ∧
       ¬ (∃ a, a ∈ articles ∧ sentiment a = Some "Negative" ∧
               t ∈ derived_topics a)) ∧
    (∀ t, t ∈ neg_unique ↔
       (∃ a, a ∈ articles ∧ sentiment a = Some "Negative" ∧
             t ∈ derived_topics a) ∧
       ¬ (∃ a, a ∈ articles ∧ sentiment a = Some "Positive" ∧
               t ∈ derived_topics a)) ∧
    coverage_differences (analyze articles) =
      [ {| comparison :=
             "Positive articles focus on " +:+
             (if decide (pos_unique = []) then "various topics"
              else Py.join ", " pos_unique) +:+
             ", while negative articles focus on " +:+
             (if decide (neg_unique = []) then "various topics"
              else Py.join ", " neg_unique) +:+ ".";
           impact :=
             "This contrast shows different aspects of the company's public perception." |};
        {| comparison :=
             "Overall coverage is predominantly " +:+
             Py.lower max_sentiment +:+ ".";
           impact :=
             "The " +:+ Py.lower max_sentiment +:+ " sentiment suggests " +:+
             (if decide (max_sentiment = "Positive")
              then "a positive public perception"
              else if decide (max_sentiment = "Negative")
              then "a negative public perception"
              else "a balanced public perception") +:+ "." |} ] ∧
    Py.dict_get max_sentiment (sentiment_distribution (analyze articles)) =
      Some n ∧
    ∀ k v, Py.dict_get k (sentiment_distribution (analyze articles)) = Some v →
           v ≤ n.
Proof.
  intros Hpos Hneg.
  assert (2 ≤ length articles ∧
    ∃ a b, a ∈ articles ∧ b ∈ articles ∧ get_sentiment a ≠ get_sentiment b)
    as [Hlen Hlabels].
  { destruct Hpos as (a & Ha & Hsa), Hneg as (b & Hb & Hsb).
    assert (get_sentiment a ≠ get_sentiment b) as Hne
      by (unfold get_sentiment; rewrite Hsa, Hsb; discriminate).
    split; [|by exists a, b].
    apply (two_distinct_length articles a b); [done..|]. by intros ->. }
  split; [done|]. split; [done|].
  destruct (coverage_open articles Hlen Hlabels) as (m & Hm & Hcov).
  destruct (max_key_spec _ m (tally_NoDup [] articles (NoDup_nil_2)) Hm)
    as (n & Hn & Hmax).
  set (pos_topics := label_topics "Positive" articles).
  set (neg_topics := label_topics "Negative" articles).
  exists (elements (pos_topics ∖ neg_topics)),
    (elements (neg_topics ∖ pos_topics)), m, n.
  rewrite analyze_coverage, analyze_sentiment_distribution.
  split_and!; [apply NoDup_elements | apply NoDup_elements | | | | done | done].
  - intros t. unfold pos_topics, neg_topics.
    by rewrite elem_of_elements, elem_of_difference, !label_topics_elem.
  - intros t. unfold pos_topics, neg_topics.
    by rewrite elem_of_elements, elem_of_difference, !label_topics_elem.
  - rewrite Hcov. apply filter_nonempty in Hpos, Hneg.
    destruct (filter (has_sentiment "Positive") articles); [done|].
    destruct (filter (has_sentiment "Negative") articles); [done|].
    unfold contrast_item, trend_item, perception.
    by rewrite !subset_topics_retag, !focus_phrase_listing.
Qed.

Lemma coverage_positive_negative_witness :
  (2 ≤ length [a_pos; a_neg; a_neg] ∧
   ∃ a b, a ∈ [a_pos; a_neg; a_neg] ∧ b ∈ [a_pos; a_neg; a_neg] ∧
          get_sentiment a ≠ get_sentiment b) ∧
  ((∀ x, Py.join ", " [x] = x) ∧
   (∀ x y l, Py.join ", " (x :: y :: l) =
             x +:+ ", " +:+ Py.join ", " (y :: l))) ∧
  ∃ pos_unique neg_unique max_sentiment n,
    NoDup pos_unique ∧ NoDup neg_unique ∧
    (∀ t, t ∈ pos_unique ↔
       (∃ a, a ∈ [a_pos; a_neg; a_neg] ∧ sentiment a = Some "Positive" ∧
             t ∈ derived_topics a) ∧
       ¬ (∃ a, a ∈ [a_pos; a_neg; a_neg] ∧ sentiment a = Some "Negative" ∧
               t ∈ derived_topics a)) ∧
    (∀ t, t ∈ neg_unique ↔
       (∃ a, a ∈ [a_pos; a_neg; a_neg] ∧ sentiment a = Some "Negative" ∧
             t ∈ derived_topics a) ∧
       ¬ (∃ a, a ∈ [a_pos; a_neg; a_neg] ∧ sentiment a = Some "Positive" ∧
               t ∈ derived_topics a)) ∧
    coverage_differences (analyze [a_pos; a_neg; a_neg]) =
      [ {| comparison :=
             "Positive articles focus on " +:+
             (if decide (pos_unique = []) then "various topics"
              else Py.join ", " pos_unique) +:+
             ", while negative articles focus on " +:+
             (if decide (neg_unique = []) then "various topics"
              else Py.join ", " neg_unique) +:+ ".";
           impact :=
             "This contrast shows different aspects of the company's public perception." |};
        {| comparison :=
             "Overall coverage is predominantly " +:+
             Py.lower max_sentiment +:+ ".";
           impact :=
             "The " +:+ Py.lower max_sentiment +:+ " sentiment suggests " +:+
             (if decide (max_sentiment = "Positive")
              then "a positive public perception"
              else if decide (max_sentiment = "Negative")
              then "a negative public perception"
              else "a balanced public perception") +:+ "." |} ] ∧
    Py.dict_get max_sentiment
      (sentiment_distribution (analyze [a_pos; a_neg; a_neg])) = Some n ∧
    ∀ k v, Py.dict_get k
      (sentiment_distribution (analyze [a_pos; a_neg; a_neg])) = Some v →
           v ≤ n.
Proof.
  apply (coverage_positive_negative [a_pos; a_neg; a_neg]).
  - exists a_pos. split; [left | reflexivity].
  - exists a_neg. split; [right; left | reflexivity].
Defined.

(** C8: the classifier is a total function whose result is never empty; it
    returns exactly the list holding General alone when no keyword of any
    topic bucket occurs as a substring of the lower-cased text, and only
    then; in particular it does so for an empty or blank text. *)
Theorem extract_topics_general (text : string) :
  extract_topics text ≠ [] ∧
  (extract_topics text = ["General"] ↔
   ∀ k, is_keyword k → ¬ occurs_in k (Py.lower text)) ∧
  (whitespace_only text → extract_topics text = ["General"]).
Proof.
  split_and!.
  - apply extract_topics_nonempty.
  - apply general_iff_no_keyword.
  - intros Hws. apply general_iff_no_keyword.
    intros k Hk. by apply whitespace_no_keyword.
Qed.

Lemma extract_topics_general_witness :
  (whitespace_only "" ∧ extract_topics "" = ["General"]) ∧
  (whitespace_only "  " ∧ extract_topics "  " = ["General"]).
Proof.
  split; split.
  - constructor.
  - apply (proj2 (proj2 (extract_topics_general ""))). constructor.
  - repeat constructor.
  - apply (proj2 (proj2 (extract_topics_general "  "))). repeat constructor.
Defined.

Section missing_sentiment.
Implicit Types (l : list article).

Lemma count_missing_le l :
  length (filter (fun a => sentiment a = None) l) ≤ count_label "Unknown" l.
Proof.
  unfold count_label. induction l as [|a l IH]; [done|].
  rewrite !filter_cons.
  destruct (decide (sentiment a = None)) as [Hs|Hs].
  - rewrite decide_True by (unfold get_sentiment; by rewrite Hs).
    simpl. lia.
  - destruct (decide (get_sentiment a = "Unknown")); simpl; lia.
Qed.

End missing_sentiment.

(** C9: an article without a sentiment field is given the label Unknown and
    is counted under it: the distribution has an Unknown entry, whose count
    is the number of articles bearing that label, covers every article
    without a sentiment, and is at least one; the engine, a total function,
    returns a result for such a list as for any other. *)
Theorem missing_sentiment_counted (articles : list article) (a : article) :
  a ∈ articles → sentiment a = None →
  get_sentiment a = "Unknown" ∧
  Py.dict_get "Unknown" (sentiment_distribution (analyze articles)) =
    Some (count_label "Unknown" articles) ∧
  length (filter (fun a => sentiment a = None) articles) ≤
    count_label "Unknown" articles ∧
  0 < count_label "Unknown" articles ∧
  sum_list (sentiment_distribution (analyze articles)).*2 = length articles.
Proof.
  intros Ha Hs.
  assert (get_sentiment a = "Unknown") as Hu
    by (unfold get_sentiment; by rewrite Hs).
  assert ("Unknown" ∈ get_sentiment <$> articles) as Hin.
  { apply list_elem_of_fmap. by exists a. }
  rewrite analyze_sentiment_distribution, tally_lookup, tally_sum.
  rewrite decide_True by done.
  split_and!;
    [done | done | apply count_missing_le | by apply count_label_pos | done].
Qed.

Lemma missing_sentiment_counted_witness :
  Py.dict_get "Unknown"
    (sentiment_distribution (analyze [a_pos; a_missing; a_missing])) =
  Some (count_label "Unknown" [a_pos; a_missing; a_missing]).
Proof.
  apply (missing_sentiment_counted [a_pos; a_missing; a_missing] a_missing).
  - right; left.
  - reflexivity.
Defined.

(** C10: the keywords "AI" of Technology and "EV" of Automotive are listed
    with capital letters but looked up in the lower-cased text, so neither
    ever matches; a text that consists of the word "AI" alone (or "EV"
    alone) is classified General. *)
Theorem uppercase_keywords_never_match :
  ("AI" ∈ default [] (Py.dict_get "Technology" topic_keywords) ∧
   "EV" ∈ default [] (Py.dict_get "Automotive" topic_keywords)) ∧
  (∀ text, Py.contains "AI" (Py.lower text) = false ∧
           Py.contains "EV" (Py.lower text) = false) ∧
  (Py.contains "AI" "AI" = true ∧ extract_topics "AI" = ["General"]) ∧
  (Py.contains "EV" "EV" = true ∧ extract_topics "EV" = ["General"]).
Proof.
  split_and!; try reflexivity.
  - simpl. rewrite !elem_of_cons. tauto.
  - simpl. rewrite !elem_of_cons. tauto.
  - intros text. split.
    + destruct (Py.contains "AI" (Py.lower text)) eqn:Hc; [|done].
      apply contains_chars in Hc.
      assert (is_upper "A" = false) as Hup
        by (apply (lower_no_upper text), Hc; left).
      discriminate Hup.
    + destruct (Py.contains "EV" (Py.lower text)) eqn:Hc; [|done].
      apply contains_chars in Hc.
      assert (is_upper "E" = false) as Hup
        by (apply (lower_no_upper text), Hc; left).
      discriminate Hup.
Qed.

(** * Further properties of the code *)

(** ** Stripping blanks *)

Lemma chars_nil_iff (s : string) : chars s = [] ↔ s = "".
Proof. by destruct s. Qed.

Lemma chars_rev_app (s t : string) :
  chars (String.rev_app s t) = reverse (chars s) ++ chars t.
Proof.
  revert t. induction s as [|c s IH]; intros t; simpl; [done|].
  by rewrite IH, reverse_cons, <- app_assoc.
Qed.

Lemma chars_rev (s : string) : chars (String.rev s) = reverse (chars s).
Proof. unfold String.rev. by rewrite chars_rev_app, app_nil_r. Qed.

Lemma lstrip_head (s : string) :
  PyLib.lstrip s = "" ∨
  ∃ c s', PyLib.lstrip s = String c s' ∧ is_whitespace c = false.
Proof.
  induction s as [|c s IH]; simpl; [by left|].
  destruct (is_whitespace c) eqn:Hc; [done|]. right. eauto.
Qed.

Lemma lstrip_empty_iff (s : string) :
  PyLib.lstrip s = "" ↔ whitespace_only s.
Proof.
  unfold whitespace_only. induction s as [|c s IH]; simpl.
  - split; [constructor | done].
  - rewrite Forall_cons. destruct (is_whitespace c) eqn:Hc.
    + rewrite IH. tauto.
    + split; [done | intros [? _]; done].
Qed.

Lemma whitespace_only_lstrip (s : string) :
  whitespace_only (PyLib.lstrip s) ↔ whitespace_only s.
Proof.
  rewrite <- (lstrip_empty_iff s). split.
  - destruct (lstrip_head s) as [->|(c & s' & -> & Hc)]; [done|].
    intros [Hw _]%Forall_cons. congruence.
  - intros ->. constructor.
Qed.

Lemma whitespace_only_rev (s : string) :
  whitespace_only (String.rev s) ↔ whitespace_only s.
Proof. unfold whitespace_only. by rewrite chars_rev, Forall_reverse. Qed.

Lemma rev_empty_iff (s : string) : String.rev s = "" ↔ s = "".
Proof.
  rewrite <- !chars_nil_iff, chars_rev. split; [|by intros ->].
  intros H. apply (f_equal reverse) in H. by rewrite reverse_involutive in H.
Qed.

Lemma strip_empty_iff (s : string) :
  PyLib.strip s = "" ↔ whitespace_only s.
Proof.
  unfold PyLib.strip, PyLib.rstrip.
  by rewrite rev_empty_iff, lstrip_empty_iff, whitespace_only_rev,
    whitespace_only_lstrip.
Qed.

(** ** More on the topic classifier *)

Lemma scan_topics_filter table text (acc : list string) :
  scan_topics table text acc =
  acc ++ (filter (fun tk => any_keyword_in tk.2 text = true) table).*1.
Proof.
  revert acc. induction table as [|[topic kws] table IH]; intros acc; simpl.
  - by rewrite app_nil_r.
  - rewrite filter_cons. simpl.
    destruct (any_keyword_in kws text) eqn:Hany.
    + rewrite decide_True by done. rewrite IH, <- app_assoc. done.
    + rewrite decide_False by done. apply IH.
Qed.

Lemma topic_keywords_NoDup : NoDup topic_keywords.*1.
Proof. apply (bool_decide_unpack _). by vm_compute. Qed.

Lemma taxonomy_NoDup : NoDup taxonomy.
Proof. apply (bool_decide_unpack _). by vm_compute. Qed.

Lemma fmap_sublist {A B} (f : A → B) (l1 l2 : list A) :
  l1 `sublist_of` l2 → f <$> l1 `sublist_of` f <$> l2.
Proof.
  induction 1 as [|x l1 l2 _ IH|x l1 l2 _ IH]; simpl.
  - constructor.
  - by apply sublist_skip.
  - by apply sublist_cons.
Qed.

Lemma buckets_in_taxonomy : topic_keywords.*1 `sublist_of` taxonomy.
Proof.
  unfold taxonomy. simpl.
  repeat first [apply sublist_skip | apply sublist_cons]. apply sublist_nil.
Qed.

Lemma General_in_taxonomy : ["General"] `sublist_of` taxonomy.
Proof.
  unfold taxonomy.
  repeat first [apply sublist_skip | apply sublist_cons]. apply sublist_nil.
Qed.

Lemma lower_app (s t : string) :
  Py.lower (s +:+ t) = Py.lower s +:+ Py.lower t.
Proof.
  induction s as [|c s IH]; [done|].
  rewrite app_cons. simpl. by rewrite IH.
Qed.

Lemma string_app_assoc (s t u : string) : (s +:+ t) +:+ u = s +:+ t +:+ u.
Proof.
  induction s as [|c s IH]; [done|]. rewrite !app_cons. by rewrite IH.
Qed.

Lemma occurs_in_trans (k t u : string) :
  occurs_in k t → occurs_in t u → occurs_in k u.
Proof.
  intros (p1 & q1 & ->) (p2 & q2 & ->).
  exists (p2 +:+ p1), (q1 +:+ q2). by rewrite !string_app_assoc.
Qed.

Lemma occurs_in_lower (t u : string) :
  occurs_in t u → occurs_in (Py.lower t) (Py.lower u).
Proof.
  intros (p & q & ->). exists (Py.lower p), (Py.lower q).
  by rewrite !lower_app.
Qed.

Lemma extract_topics_cases (text : string) :
  (scan_topics topic_keywords (Py.lower text) [] = [] ∧
   extract_topics text = ["General"]) ∨
  (scan_topics topic_keywords (Py.lower text) [] ≠ [] ∧
   extract_topics text = scan_topics topic_keywords (Py.lower text) []).
Proof.
  unfold extract_topics.
  destruct (scan_topics topic_keywords (Py.lower text) []); [by left | by right].
Qed.

Lemma bucket_topic_iff (text topic : string) (kws : list string) :
  (topic, kws) ∈ topic_keywords →
  topic ∈ extract_topics text ↔ any_keyword_in kws (Py.lower text) = true.
Proof.
  intros Hin. split.
  - destruct (extract_topics_cases text) as [[_ ->]|[_ ->]].
    + intros ->%list_elem_of_singleton. by apply General_not_a_bucket in Hin.
    + intros [[]%elem_of_nil|(kws' & Hin' & Hany)]%scan_topics_elem.
      apply (dict_get_elem _ _ _ topic_keywords_NoDup) in Hin, Hin'. congruence.
  - intros Hany.
    assert (topic ∈ scan_topics topic_keywords (Py.lower text) []) as Ht
      by (apply scan_topics_elem; eauto).
    destruct (extract_topics_cases text) as [[Hnil _]|[_ ->]]; [|done].
    rewrite Hnil in Ht. by apply elem_of_nil in Ht.
Qed.

(** X1: the classifier returns a duplicate-free list of topic labels in
    the order of the taxonomy, and General only on its own. *)
Theorem extract_topics_shape (text : string) :
  extract_topics text `sublist_of` taxonomy ∧
  NoDup (extract_topics text) ∧
  ("General" ∈ extract_topics text ↔ extract_topics text = ["General"]).
Proof.
  assert (extract_topics text `sublist_of` taxonomy) as Hsub.
  { destruct (extract_topics_cases text) as [[_ ->]|[_ ->]].
    - apply General_in_taxonomy.
    - rewrite scan_topics_filter, app_nil_l.
      trans (topic_keywords.*1); [|apply buckets_in_taxonomy].
      apply fmap_sublist, sublist_filter. }
  split_and!; [done | |].
  - eapply sublist_NoDup; [apply taxonomy_NoDup | done].
  - split; [|intros ->; left].
    destruct (extract_topics_cases text) as [[_ ->]|[_ ->]]; [done|].
    intros [[]%elem_of_nil|(kws & Hin & _)]%scan_topics_elem.
    by apply General_not_a_bucket in Hin.
Qed.

(** X2: a topic other than General is returned exactly when one of the
    keywords of its bucket occurs in the lower-cased text. *)
Theorem extract_topics_bucket (text topic : string) (kws : list string) :
  (topic, kws) ∈ topic_keywords →
  topic ∈ extract_topics text ↔ ∃ k, k ∈ kws ∧ occurs_in k (Py.lower text).
Proof.
  intros Hin. by rewrite (bucket_topic_iff _ _ _ Hin), any_keyword_in_true.
Qed.

Lemma extract_topics_bucket_witness :
  "Regulation" ∈ extract_topics "The Court ruled on Monday" ↔
  ∃ k, k ∈ ["regulation"; "regulatory"; "compliance"; "legal"; "law";
            "lawsuit"; "litigation"; "court"; "ruling"; "guideline";
            "policy"; "policies"] ∧
       occurs_in k (Py.lower "The Court ruled on Monday").
Proof.
  apply (extract_topics_bucket "The Court ruled on Monday" "Regulation").
  unfold topic_keywords. do 3 right. left.
Defined.

(** X3: enlarging a text never loses a topic: every topic other than
    General found in a text is found in any text that contains it. *)
Theorem extract_topics_monotone (t u topic : string) :
  occurs_in t u → topic ∈ extract_topics t → topic ≠ "General" →
  topic ∈ extract_topics u.
Proof.
  intros Hocc Ht Hne.
  destruct (extract_topics_cases t) as [[_ Heq]|[_ Heq]]; rewrite Heq in Ht.
  { by apply list_elem_of_singleton in Ht. }
  apply scan_topics_elem in Ht as [[]%elem_of_nil|(kws & Hin & Hany)].
  apply (bucket_topic_iff _ _ _ Hin).
  apply any_keyword_in_true in Hany as (k & Hk & Hkt).
  apply any_keyword_in_true. exists k. split; [done|].
  eapply occurs_in_trans; [done|]. by apply occurs_in_lower.
Qed.

Lemma extract_topics_monotone_witness :
  "Finance" ∈ extract_topics "Shares surge Investors cheer record profit".
Proof.
  apply (extract_topics_monotone "Shares surge" _ "Finance").
  - by exists "", " Investors cheer record profit".
  - left.
  - discriminate.
Defined.

(** ** More on the analysis engine *)

Lemma filter_length_all {A} (P : A → Prop) `{!∀ x, Decision (P x)}
    (l : list A) :
  length (filter P l) = length l ↔ Forall P l.
Proof.
  induction l as [|x l IH]; [by split; [constructor|]|].
  rewrite filter_cons, Forall_cons. destruct (decide (P x)); simpl.
  - rewrite <- IH. split; [intros [= ?]; auto | intros [_ ->]; done].
  - pose proof (length_filter P l). split; [lia | tauto].
Qed.

Lemma filter_length_pos {A} (P : A → Prop) `{!∀ x, Decision (P x)}
    (l : list A) :
  0 < length (filter P l) ↔ ∃ x, x ∈ l ∧ P x.
Proof.
  split.
  - destruct (filter P l) as [|x l'] eqn:Hf; simpl; [lia|]. intros _.
    assert (x ∈ filter P l) as Hx by (rewrite Hf; left).
    apply list_elem_of_filter in Hx. exists x. tauto.
  - intros (x & Hx & HP).
    assert (x ∈ filter P l) as Hin by (by apply list_elem_of_filter).
    destruct (filter P l); [by apply elem_of_nil in Hin | simpl; lia].
Qed.

Lemma topic_frequency_lookup (articles : list article) (t : string) (n : nat) :
  Py.dict_get t (topic_frequency_of (analyze articles)) = Some n →
  articles ≠ [] ∧
  t ∈ all_topics (topic_loop articles) ∧
  n = length (filter (fun a => t ∈ derived_topics a) articles).
Proof.
  destruct (decide (articles = [])) as [->|Hne]; [done|].
  rewrite topic_frequency_of_nonempty by done.
  rewrite (dict_get_table (fun t => topic_count t (derived_topics <$> articles))).
  destruct (decide (t ∈ elements (all_topics (topic_loop articles))))
    as [Hin|]; [|done].
  intros [= <-]. rewrite topic_count_articles.
  split_and!; [done | by apply elem_of_elements | done].
Qed.

(** X4: every count of the topic frequency lies between 1 and the number
    of articles, and a topic is a common topic exactly when its count is
    the number of articles. *)
Theorem topic_frequency_bounds (articles : list article) (t : string) (n : nat) :
  Py.dict_get t (topic_frequency_of (analyze articles)) = Some n →
  1 ≤ n ≤ length articles ∧
  (t ∈ common_topics_of (analyze articles) ↔ n = length articles).
Proof.
  intros (Hne & Hall & ->)%topic_frequency_lookup. split_and!.
  - apply filter_length_pos. by apply topic_loop_all_topics.
  - apply length_filter.
  - rewrite common_topics_of_nonempty by done.
    rewrite elem_of_elements, common_of_elem, filter_length_all, Forall_forall.
    split.
    + intros [_ Hper] a Ha. apply Hper, list_elem_of_fmap. by exists a.
    + intros Hper. split; [done|].
      intros ts (a & -> & Ha)%list_elem_of_fmap. by apply Hper.
Qed.

Lemma topic_frequency_bounds_witness :
  1 ≤ 2 ≤ length [a_neg; a_pos; a_neg] ∧
  ("Automotive" ∈ common_topics_of (analyze [a_neg; a_pos; a_neg]) ↔
   2 = length [a_neg; a_pos; a_neg]).
Proof.
  apply (topic_frequency_bounds [a_neg; a_pos; a_neg] "Automotive" 2).
  vm_compute. reflexivity.
Defined.

Lemma analyze_fmap (f : article → article) (articles : list article) :
  (∀ a, retag (f a) = retag a) → analyze (f <$> articles) = analyze articles.
Proof.
  intros Hf.
  assert (∀ a, get_sentiment (f a) = get_sentiment a) as Hs.
  { intros a. pose proof (f_equal sentiment (Hf a)) as H. simpl in H.
    unfold get_sentiment. by rewrite H. }
  assert (∀ a, derived_topics (f a) = derived_topics a) as Hd.
  { intros a. pose proof (f_equal topics (Hf a)) as H. simpl in H.
    by injection H. }
  assert (∀ d, foldl count_sentiment d (f <$> articles) =
               foldl count_sentiment d articles) as Ht.
  { assert (∀ d a, count_sentiment d (f a) = count_sentiment d a) as Hc
      by (intros d a; unfold count_sentiment; by rewrite Hs).
    induction articles as [|a l IH]; intros d; [done|]. simpl.
    rewrite Hc. apply IH. }
  assert (retag <$> (f <$> articles) = retag <$> articles) as Hr.
  { rewrite <- list_fmap_compose. apply list_fmap_ext. intros. apply Hf. }
  assert (derived_topics <$> (f <$> articles) = derived_topics <$> articles)
    as Hds.
  { rewrite <- list_fmap_compose. apply list_fmap_ext. intros. apply Hd. }
  assert (topic_loop (f <$> articles) = topic_loop articles) as Hl.
  { unfold topic_loop. rewrite !topic_loop_from, Hr, Hds. do 3 f_equal.
    rewrite <- list_fmap_compose. apply list_fmap_ext. intros. simpl.
    by rewrite Hd. }
  destruct (decide (articles = [])) as [->|Hne]; [done|].
  assert (f <$> articles ≠ []) as Hne' by (by destruct articles).
  apply analysis_eq.
  - by rewrite !analyze_sentiment_distribution, Ht.
  - by rewrite !analyze_overlap, Hl, Hds.
  - by rewrite !analyze_coverage, Ht, Hr.
Qed.

(** X5: running the engine a second time changes nothing: on the articles
    a first call leaves behind, a second call returns the same result and
    leaves the articles as they are. *)
Theorem analyze_idempotent (articles : list article) :
  analyze (articles_after articles) = analyze articles ∧
  articles_after (articles_after articles) = articles_after articles.
Proof.
  rewrite !articles_after_eq. split.
  - by apply analyze_fmap.
  - rewrite <- list_fmap_compose. by apply list_fmap_ext.
Qed.

(** X6: the engine emits at most two coverage comparisons; when the gate
    is open but the Positive or the Negative articles are missing, it emits
    the overall-trend comparison alone. *)
Theorem coverage_trend_only (articles : list article) :
  length (coverage_differences (analyze articles)) ≤ 2 ∧
  (2 ≤ length articles →
   (∃ a b, a ∈ articles ∧ b ∈ articles ∧ get_sentiment a ≠ get_sentiment b) →
   (∀ a, a ∈ articles → sentiment a ≠ Some "Positive") ∨
   (∀ a, a ∈ articles → sentiment a ≠ Some "Negative") →
   ∃ max_sentiment,
     Py.max_key (sentiment_distribution (analyze articles)) =
       Some max_sentiment ∧
     coverage_differences (analyze articles) =
       [ {| comparison :=
              "Overall coverage is predominantly " +:+
              Py.lower max_sentiment +:+ ".";
            impact :=
              "The " +:+ Py.lower max_sentiment +:+ " sentiment suggests " +:+
              perception max_sentiment +:+ "." |} ]).
Proof.
  rewrite analyze_coverage, analyze_sentiment_distribution. split.
  - destruct (decide (2 ≤ length articles)) as [Hlen|Hlen];
      [|rewrite coverage_closed by tauto; simpl; lia].
    destruct (decide (2 ≤ size (list_to_set (get_sentiment <$> articles)
                                  : gset string))) as [Hlabels|Hlabels].
    + apply distinct_labels_ge_2 in Hlabels.
      destruct (coverage_open articles Hlen Hlabels) as (m & _ & ->).
      destruct (filter (has_sentiment "Positive") articles),
        (filter (has_sentiment "Negative") articles); simpl; lia.
    + rewrite coverage_closed; [simpl; lia|].
      intros [_ ?%distinct_labels_ge_2]. done.
  - intros Hlen Hlabels Hmiss.
    destruct (coverage_open articles Hlen Hlabels) as (m & Hm & ->).
    exists m. split; [done|].
    assert (filter (has_sentiment "Positive") articles = [] ∨
            filter (has_sentiment "Negative") articles = []) as [->| ->].
    { destruct Hmiss as [Hmiss|Hmiss]; [left | right].
      - destruct (decide (filter (has_sentiment "Positive") articles = []))
          as [|Hne]; [done|].
        apply filter_nonempty in Hne as (x & Hx & Hs). by destruct (Hmiss x).
      - destruct (decide (filter (has_sentiment "Negative") articles = []))
          as [|Hne]; [done|].
        apply filter_nonempty in Hne as (x & Hx & Hs). by destruct (Hmiss x). }
    + done.
    + by destruct (filter (has_sentiment "Positive") articles).
Qed.

Lemma coverage_trend_only_witness :
  ∃ max_sentiment,
    Py.max_key (sentiment_distribution (analyze [a_neu; a_pos; a_neu])) =
      Some max_sentiment ∧
    coverage_differences (analyze [a_neu; a_pos; a_neu]) =
      [ {| comparison :=
             "Overall coverage is predominantly " +:+
             Py.lower max_sentiment +:+ ".";
           impact :=
             "The " +:+ Py.lower max_sentiment +:+ " sentiment suggests " +:+
             perception max_sentiment +:+ "." |} ].
Proof.
  apply (proj2 (coverage_trend_only [a_neu; a_pos; a_neu])).
  - simpl. lia.
  - exists a_neu, a_pos. split_and!; [left | right; left | discriminate].
  - right. intros a Ha.
    repeat (apply elem_of_cons in Ha as [->|Ha]; [discriminate|]).
    by apply elem_of_nil in Ha.
Defined.

(** ** Ties between sentiment counts *)

Lemma max_from_first best best_v (d : list (string * nat)) :
  (Py.max_from best best_v d = best ∧ ∀ kv, kv ∈ d → kv.2 ≤ best_v) ∨
  ∃ pre n post,
    d = pre ++ (Py.max_from best best_v d, n) :: post ∧
    best_v < n ∧
    (∀ kv, kv ∈ pre → kv.2 < n) ∧ (∀ kv, kv ∈ post → kv.2 ≤ n).
Proof.
  revert best best_v. induction d as [|[k v] d IH]; intros best best_v; simpl.
  - left. split; [done|]. by intros ? ?%elem_of_nil.
  - destruct (Nat.ltb_spec best_v v) as [Hlt|Hge].
    + right. destruct (IH k v) as [[-> Hall]|(pre & n & post & Hd & Hn & Hpre & Hpost)].
      * exists [], v, d. split_and!; [done | done | | done].
        by intros ? ?%elem_of_nil.
      * exists ((k, v) :: pre), n, post. split_and!; [|lia| |done].
        -- simpl. by rewrite <- Hd.
        -- intros kv [->|?]%elem_of_cons; [done | by apply Hpre].
    + destruct (IH best best_v) as [[-> Hall]|(pre & n & post & Hd & Hn & Hpre & Hpost)].
      * left. split; [done|].
        intros kv [->|?]%elem_of_cons; [done | by apply Hall].
      * right. exists ((k, v) :: pre), n, post. split_and!; [|lia| |done].
        -- simpl. by rewrite <- Hd.
        -- intros kv [->|?]%elem_of_cons; [simpl; lia | by apply Hpre].
Qed.

Lemma max_key_first (d : list (string * nat)) (m : string) :
  Py.max_key d = Some m →
  ∃ pre n post,
    d = pre ++ (m, n) :: post ∧
    (∀ kv, kv ∈ pre → kv.2 < n) ∧ (∀ kv, kv ∈ post → kv.2 ≤ n).
Proof.
  destruct d as [|[k v] d]; [done|]. simpl. intros [= <-].
  destruct (max_from_first k v d) as [[-> Hall]|(pre & n & post & Hd & Hn & Hpre & Hpost)].
  - exists [], v, d. split_and!; [done | | done]. by intros ? ?%elem_of_nil.
  - exists ((k, v) :: pre), n, post. split_and!; [| |done].
    + simpl. by rewrite <- Hd.
    + intros kv [->|?]%elem_of_cons; [done | by apply Hpre].
Qed.

Lemma filter_all {A} (P : A → Prop) `{!∀ x, Decision (P x)} (l : list A) :
  (∀ x, P x) → filter P l = l.
Proof.
  intros HP. induction l as [|x l IH]; [done|].
  by rewrite filter_cons_True, IH.
Qed.

Lemma count_sentiment_keys (d : list (string * nat)) (a : article) :
  (count_sentiment d a).*1 =
  if decide (get_sentiment a ∈ d.*1) then d.*1
  else d.*1 ++ [get_sentiment a].
Proof. unfold count_sentiment. apply dict_set_keys. Qed.

Lemma tally_keys_order (d : list (string * nat)) (l : list article) :
  (foldl count_sentiment d l).*1 =
  d.*1 ++ filter (fun y => y ∉ d.*1) (first_occurrences (get_sentiment <$> l)).
Proof.
  revert d. induction l as [|a l IH]; intros d.
  - simpl. by rewrite app_nil_r.
  - simpl foldl. rewrite IH, count_sentiment_keys.
    rewrite fmap_cons. cbn [first_occurrences].
    set (s := get_sentiment a). set (rest := first_occurrences _).
    destruct (decide (s ∈ d.*1)) as [Hin|Hin].
    + rewrite filter_cons_False by tauto. f_equal.
      rewrite list_filter_filter. apply list_filter_iff.
      intros y. split; [|tauto]. intros Hy. split; [done|]. by intros ->.
    + rewrite filter_cons_True by done. rewrite <- app_assoc. simpl.
      do 2 f_equal.
      rewrite list_filter_filter. apply list_filter_iff.
      intros y. rewrite elem_of_app, list_elem_of_singleton. tauto.
Qed.

(** X7: the labels of the sentiment distribution come in the order in
    which they first occur among the articles, and among the labels with the
    highest count the dominant sentiment is the one that comes first: every
    label before it has a strictly smaller count, none after it a greater
    one. *)
Theorem dominant_first_maximum (articles : list article) (m : string) :
  Py.max_key (sentiment_distribution (analyze articles)) = Some m →
  (sentiment_distribution (analyze articles)).*1 =
    first_occurrences (get_sentiment <$> articles) ∧
  ∃ pre n post,
    sentiment_distribution (analyze articles) = pre ++ (m, n) :: post ∧
    n = count_label m articles ∧
    (∀ kv, kv ∈ pre → kv.2 < n) ∧ (∀ kv, kv ∈ post → kv.2 ≤ n).
Proof.
  rewrite analyze_sentiment_distribution. intros Hm. split.
  - rewrite tally_keys_order. simpl. apply filter_all.
    intros y. apply not_elem_of_nil.
  - destruct (max_key_first _ _ Hm) as (pre & n & post & Hd & Hpre & Hpost).
    exists pre, n, post. split_and!; [done | | done | done].
    assert (Py.dict_get m (foldl count_sentiment [] articles) = Some n) as Hn.
    { apply dict_get_elem; [apply tally_NoDup, NoDup_nil_2|].
      rewrite Hd, elem_of_app. right. left. }
    rewrite tally_lookup in Hn.
    destruct (decide (m ∈ get_sentiment <$> articles)); [|done].
    by injection Hn.
Qed.

Lemma dominant_first_maximum_witness :
  (sentiment_distribution (analyze [a_neg; a_pos; a_pos; a_neg])).*1 =
    first_occurrences (get_sentiment <$> [a_neg; a_pos; a_pos; a_neg]) ∧
  ∃ pre n post,
    sentiment_distribution (analyze [a_neg; a_pos; a_pos; a_neg]) =
      pre ++ ("Negative", n) :: post ∧
    n = count_label "Negative" [a_neg; a_pos; a_pos; a_neg] ∧
    (∀ kv, kv ∈ pre → kv.2 < n) ∧ (∀ kv, kv ∈ post → kv.2 ≤ n).
Proof.
  apply (dominant_first_maximum [a_neg; a_pos; a_pos; a_neg] "Negative").
  vm_compute. reflexivity.
Defined.

(** X8: for a non-empty article list, [all_topics] is a non-empty,
    duplicate-free list of labels of the taxonomy, and the topic frequency
    has one entry for each of them, in the same order. *)
Theorem all_topics_shape (articles : list article) :
  articles ≠ [] →
  all_topics_of (analyze articles) ≠ [] ∧
  NoDup (all_topics_of (analyze articles)) ∧
  all_topics_of (analyze articles) ⊆ taxonomy ∧
  (topic_frequency_of (analyze articles)).*1 = all_topics_of (analyze articles).
Proof.
  intros Hne.
  rewrite topic_frequency_of_nonempty, all_topics_of_nonempty by done.
  split_and!.
  - destruct articles as [|a l]; [done|].
    destruct (derived_topics a) as [|t ts] eqn:Hd;
      [by apply extract_topics_nonempty in Hd|].
    assert (t ∈ elements (all_topics (topic_loop (a :: l)))) as Hin.
    { apply elem_of_elements, topic_loop_all_topics. exists a.
      split; [left | rewrite Hd; left]. }
    intros Hnil. rewrite Hnil in Hin. by apply elem_of_nil in Hin.
  - apply NoDup_elements.
  - intros t (a & _ & Ht)%elem_of_elements%topic_loop_all_topics.
    destruct (extract_topics_cases (combined_text a)) as [[_ Heq]|[_ Heq]];
      unfold derived_topics in Ht; rewrite Heq in Ht.
    + apply list_elem_of_singleton in Ht as ->. unfold taxonomy.
      do 5 right. left.
    + rewrite scan_topics_filter, app_nil_l in Ht.
      eapply elem_of_sublist; [|apply buckets_in_taxonomy].
      eapply elem_of_sublist; [done|apply fmap_sublist, sublist_filter].
  - rewrite <- list_fmap_compose. apply list_fmap_id.
Qed.

Lemma all_topics_shape_witness :
  all_topics_of (analyze [a_pos; a_neu]) ≠ [] ∧
  NoDup (all_topics_of (analyze [a_pos; a_neu])) ∧
  all_topics_of (analyze [a_pos; a_neu]) ⊆ taxonomy ∧
  (topic_frequency_of (analyze [a_pos; a_neu])).*1 =
    all_topics_of (analyze [a_pos; a_neu]).
Proof. apply (all_topics_shape [a_pos; a_neu]). discriminate. Defined.

(** ** The sentiment scorer *)

Lemma analyze_sentiment_blank polarity compound (text : string) :
  whitespace_only text → analyze_sentiment polarity compound text = "Neutral".
Proof.
  intros Hws%strip_empty_iff. unfold analyze_sentiment.
  rewrite (bool_decide_eq_true_2 (PyLib.strip text = "")) by done.
  by rewrite orb_true_r.
Qed.

Lemma analyze_sentiment_in_labels polarity compound (text : string) :
  analyze_sentiment polarity compound text ∈ scorer_labels.
Proof.
  unfold analyze_sentiment, scorer_labels.
  destruct (_ || _); [do 2 right; left|].
  destruct (polarity text) as [p|], (compound text) as [c|];
    try (do 2 right; left).
  destruct (PrimFloat.ltb _ _); [left|].
  destruct (PrimFloat.ltb _ _); [right; left | do 2 right; left].
Qed.

(** X9: whatever the two scorers return, [analyze_sentiment] answers
    Positive, Negative or Neutral; it answers Neutral for an empty or blank
    text without regard to the scorers, and Neutral when a scorer fails. *)
Theorem analyze_sentiment_label polarity compound (text : string) :
  analyze_sentiment polarity compound text ∈ scorer_labels ∧
  (whitespace_only text →
   analyze_sentiment polarity compound text = "Neutral") ∧
  (polarity text = None ∨ compound text = None →
   analyze_sentiment polarity compound text = "Neutral").
Proof.
  split_and!.
  - apply analyze_sentiment_in_labels.
  - apply analyze_sentiment_blank.
  - intros Hfail. unfold analyze_sentiment.
    destruct (_ || _); [done|].
    destruct Hfail as [-> | ->]; [done|]. by destruct (polarity text).
Qed.

Lemma analyze_sentiment_label_witness :
  analyze_sentiment (fixed_score 1) (fixed_score 1) "   " = "Neutral" ∧
  analyze_sentiment no_score (fixed_score 1) "Record profit" = "Neutral".
Proof.
  split.
  - apply (proj1 (proj2 (analyze_sentiment_label _ _ "   "))).
    repeat constructor.
  - apply (proj2 (proj2 (analyze_sentiment_label no_score _ _))).
    left. reflexivity.
Defined.

(** ** From the feed to the analysis *)

Lemma tag_article_Some polarity compound (a a' : article) :
  tag_article polarity compound a = Some a' →
  ∃ s t, summary a = Some s ∧ title a = Some t ∧
    a' = {| title := Some t; summary := Some s; source := source a;
            link := link a; date := date a;
            sentiment := Some (analyze_sentiment polarity compound s);
            topics := Some (derived_topics a) |}.
Proof.
  unfold tag_article, derived_topics, combined_text.
  destruct (summary a) as [s|] eqn:Hs; [|done].
  destruct (title a) as [t|] eqn:Ht; [|done]. simpl.
  intros [= <-]. by exists s, t.
Qed.

Lemma tag_article_retag polarity compound (a a' : article) :
  tag_article polarity compound a = Some a' → retag a' = a'.
Proof.
  intros (s & t & Hs & Ht & ->)%tag_article_Some.
  unfold retag, set_topics, derived_topics, combined_text. simpl.
  by rewrite Hs, Ht.
Qed.

Lemma tag_article_label polarity compound (a a' : article) :
  tag_article polarity compound a = Some a' → get_sentiment a' ∈ scorer_labels.
Proof.
  intros (s & t & Hs & Ht & ->)%tag_article_Some.
  apply analyze_sentiment_in_labels.
Qed.

Lemma tagged_Forall polarity compound (articles tagged : list article) :
  tag_articles polarity compound articles = Some tagged →
  Forall (fun a' => retag a' = a' ∧ get_sentiment a' ∈ scorer_labels) tagged.
Proof.
  intros H%mapM_Some_1. induction H as [|a a' l l' Ha _ IH]; constructor.
  - split; [by eapply tag_article_retag | by eapply tag_article_label].
  - done.
Qed.

(** X10: in the pipeline of the callers the engine's write to [topics] is
    invisible: the articles the tagging loop produces already carry the
    topics the engine derives, so the engine leaves them exactly as they
    are. *)
Theorem tagged_articles_unchanged polarity compound
    (articles tagged : list article) :
  tag_articles polarity compound articles = Some tagged →
  articles_after tagged = tagged.
Proof.
  intros Htag%tagged_Forall. rewrite articles_after_eq.
  induction Htag as [|a l [Ha _] _ IH]; [done|].
  by rewrite fmap_cons, Ha, IH.
Qed.

Lemma tagged_articles_unchanged_witness :
  articles_after
    [ {| title := Some "Shares surge"; summary := Some "Record profit";
         source := None; link := None; date := None;
         sentiment := Some "Neutral"; topics := Some ["Finance"] |} ] =
    [ {| title := Some "Shares surge"; summary := Some "Record profit";
         source := None; link := None; date := None;
         sentiment := Some "Neutral"; topics := Some ["Finance"] |} ].
Proof.
  apply (tagged_articles_unchanged no_score no_score
    [ {| title := Some "Shares surge"; summary := Some "Record profit";
         source := None; link := None; date := None;
         sentiment := None; topics := None |} ]).
  vm_compute. reflexivity.
Defined.

(** X11: for articles tagged by the callers, the sentiment distribution
    has no other keys than Positive, Negative and Neutral, hence at most
    three entries, and no Unknown entry. *)
Theorem tagged_three_labels polarity compound
    (articles tagged : list article) :
  tag_articles polarity compound articles = Some tagged →
  (sentiment_distribution (analyze tagged)).*1 ⊆ scorer_labels ∧
  length (sentiment_distribution (analyze tagged)) ≤ 3 ∧
  Py.dict_get "Unknown" (sentiment_distribution (analyze tagged)) = None.
Proof.
  intros Htag%tagged_Forall. rewrite Forall_forall in Htag.
  rewrite analyze_sentiment_distribution.
  assert ((foldl count_sentiment [] tagged).*1 ⊆ scorer_labels) as Hsub.
  { intros k [[]%elem_of_nil|(a & -> & Ha)%list_elem_of_fmap]%tally_keys.
    by apply Htag. }
  split_and!; [done | |].
  - rewrite <- (length_fmap fst).
    change 3 with (length scorer_labels). apply submseteq_length.
    apply NoDup_submseteq; [apply tally_NoDup, NoDup_nil_2 | done].
  - destruct (Py.dict_get "Unknown" (foldl count_sentiment [] tagged)) eqn:Hget;
      [|done].
    assert ("Unknown" ∈ scorer_labels) as Hin
      by (apply Hsub, dict_get_keys; by rewrite Hget).
    unfold scorer_labels in Hin.
    repeat (apply elem_of_cons in Hin as [[=]|Hin]). by apply elem_of_nil in Hin.
Qed.

Lemma tagged_three_labels_witness :
  length (sentiment_distribution (analyze
    [ {| title := Some "Shares surge"; summary := Some "Record profit";
         source := None; link := None; date := None;
         sentiment := Some "Neutral"; topics := Some ["Finance"] |} ])) ≤ 3.
Proof.
  apply (tagged_three_labels no_score no_score
    [ {| title := Some "Shares surge"; summary := Some "Record profit";
         source := None; link := None; date := None;
         sentiment := None; topics := None |} ]).
  vm_compute. reflexivity.
Defined.

Lemma article_of_item_cases remove_html_tags (item : feed_item) :
  match article_of_item remove_html_tags item with
  | ItemArticle a => fetched a ∧ title a = item_title item
  | _ => ¬ ∀ text, ∃ cleaned, remove_html_tags text = Stripped cleaned
  end.
Proof.
  unfold article_of_item.
  destruct (remove_html_tags (default "No description" (description_tag item)))
    as [cleaned| |] eqn:Hstrip.
  - unfold fetched. simpl. split_and!; eauto.
  - intros Htotal.
    destruct (Htotal (default "No description" (description_tag item)))
      as [cleaned Hc]. congruence.
  - intros Htotal.
    destruct (Htotal (default "No description" (description_tag item)))
      as [cleaned Hc]. congruence.
Qed.

Lemma collect_articles_spec remove_html_tags (items : list feed_item)
    (articles : list article) :
  length (collect_articles remove_html_tags articles items) ≤
    length articles + length items ∧
  (Forall fetched articles →
   Forall fetched (collect_articles remove_html_tags articles items)) ∧
  (collect_articles remove_html_tags articles items = [] ∨
   ∃ added,
     collect_articles remove_html_tags articles items = articles ++ added ∧
     title <$> added `sublist_of` item_title <$> items) ∧
  ((∀ text, ∃ cleaned, remove_html_tags text = Stripped cleaned) →
   ∃ added,
     collect_articles remove_html_tags articles items = articles ++ added ∧
     length added = length items).
Proof.
  revert articles. induction items as [|item rest IH]; intros articles;
    cbn [collect_articles].
  - split_and!; [simpl; lia | done | |].
    + right. exists []. by rewrite app_nil_r.
    + intros _. exists []. by rewrite app_nil_r.
  - pose proof (article_of_item_cases remove_html_tags item) as Hitem.
    destruct (article_of_item remove_html_tags item) as [a| |].
    + destruct Hitem as [Ha Htitle].
      destruct (IH (articles ++ [a])) as (Hlen & Hfetched & Horder & Hall).
      split_and!.
      * rewrite length_app in Hlen. simpl in *. lia.
      * intros Hf. apply Hfetched, Forall_app. split; [done|].
        by constructor.
      * destruct Horder as [?|(added & -> & Hsub)]; [by left|]. right.
        exists (a :: added). split; [by rewrite <- app_assoc|].
        rewrite !fmap_cons, Htitle. by apply sublist_skip.
      * intros Htotal. destruct (Hall Htotal) as (added & -> & Hadded).
        exists (a :: added). split; [by rewrite <- app_assoc|]. simpl. lia.
    + destruct (IH articles) as (Hlen & Hfetched & Horder & Hall).
      split_and!; [simpl; lia | done | | done].
      destruct Horder as [?|(added & -> & Hsub)]; [by left|]. right.
      exists added. split; [done|]. rewrite fmap_cons. by apply sublist_cons.
    + split_and!; [simpl; lia | by constructor | by left | done].
Qed.

Lemma collect_articles_aborted remove_html_tags (items : list feed_item)
    (articles : list article) :
  (∃ item, item ∈ items ∧ aborts remove_html_tags item) →
  collect_articles remove_html_tags articles items = [].
Proof.
  revert articles. induction items as [|item rest IH]; intros articles;
    cbn [collect_articles].
  - by intros (? & ?%elem_of_nil & _).
  - intros (bad & Hin & Hbad).
    destruct (article_of_item remove_html_tags item) as [a| |] eqn:Hitem;
      [| |done].
    + apply elem_of_cons in Hin as [->|Hin]; [|apply IH; eauto].
      unfold article_of_item, aborts in *. by rewrite Hbad in Hitem.
    + apply elem_of_cons in Hin as [->|Hin]; [|apply IH; eauto].
      unfold article_of_item, aborts in *. by rewrite Hbad in Hitem.
Qed.

Lemma collect_articles_kept remove_html_tags (items : list feed_item)
    (articles : list article) :
  (∀ item, item ∈ items → ¬ aborts remove_html_tags item) →
  collect_articles remove_html_tags articles items =
  articles ++
  omap (fun item =>
          match article_of_item remove_html_tags item with
          | ItemArticle a => Some a
          | _ => None
          end) items.
Proof.
  revert articles. induction items as [|item rest IH]; intros articles Hok;
    cbn [collect_articles omap list_omap].
  - by rewrite app_nil_r.
  - assert (∀ item, item ∈ rest → ¬ aborts remove_html_tags item) as Hrest
      by (intros ? ?; apply Hok; by right).
    destruct (article_of_item remove_html_tags item) as [a| |] eqn:Hitem.
    + rewrite IH by done. by rewrite <- app_assoc.
    + by apply IH.
    + destruct (Hok item); [left|].
      unfold article_of_item, aborts in *.
      by destruct (remove_html_tags _).
Qed.

(** X12: whatever the HTML stripper does on each item (strip, raise an
    error the loop skips, raise an error that abandons the fetch), the
    fetcher returns at most min(10, number of items) article records, whose
    titles follow the order of the feed, each with its five fields present
    and neither sentiment nor topics; on these records the tagging loop of
    the callers never fails and returns as many articles. If one of the
    first ten items abandons the fetch the result is empty; otherwise it
    holds the articles of exactly those of the first ten items that are not
    skipped, in their order, that is min(10, number of items) articles when
    the stripper never raises. *)
Theorem articles_of_items_ready remove_html_tags polarity compound
    (items : list feed_item) :
  length (articles_of_items remove_html_tags items) ≤ min 10 (length items) ∧
  title <$> articles_of_items remove_html_tags items `sublist_of`
    (fun item => Some (default "No title" (title_tag item))) <$>
      take 10 items ∧
  Forall (fun a => is_Some (title a) ∧ is_Some (summary a) ∧
                   is_Some (source a) ∧ is_Some (link a) ∧ is_Some (date a) ∧
                   sentiment a = None ∧ topics a = None)
         (articles_of_items remove_html_tags items) ∧
  (∃ tagged,
     tag_articles polarity compound (articles_of_items remove_html_tags items) =
       Some tagged ∧
     length tagged = length (articles_of_items remove_html_tags items)) ∧
  ((∃ item, item ∈ take 10 items ∧
            remove_html_tags
              (default "No description" (description_tag item)) =
            StripAborted) →
   articles_of_items remove_html_tags items = []) ∧
  ((∀ item, item ∈ take 10 items →
            remove_html_tags
              (default "No description" (description_tag item)) ≠
            StripAborted) →
   articles_of_items remove_html_tags items =
   omap (fun item =>
           match article_of_item remove_html_tags item with
           | ItemArticle a => Some a
           | _ => None
           end) (take 10 items)) ∧
  ((∀ text, ∃ cleaned, remove_html_tags text = Stripped cleaned) →
   length (articles_of_items remove_html_tags items) = min 10 (length items)).
Proof.
  unfold articles_of_items.
  destruct (collect_articles_spec remove_html_tags (take 10 items) [])
    as (Hlen & Hfetched & Horder & Hall).
  simpl in Hlen. rewrite length_take in Hlen.
  specialize (Hfetched (Forall_nil_2 _)).
  split_and!.
  - done.
  - destruct Horder as [->|(added & -> & Hsub)]; [apply sublist_nil_l | done].
  - done.
  - destruct (mapM_is_Some_2 (tag_article polarity compound)
      (collect_articles remove_html_tags [] (take 10 items))) as [tagged Ht].
    { eapply Forall_impl; [exact Hfetched|]. simpl.
      intros a ([t Ht] & [s Hs] & _). unfold tag_article.
      rewrite Hs, Ht. simpl. eauto. }
    exists tagged. split; [done|].
    apply mapM_Some_1, Forall2_length in Ht. done.
  - apply collect_articles_aborted.
  - intros Hok. by rewrite collect_articles_kept.
  - intros Htotal. destruct (Hall Htotal) as (added & -> & Hadded).
    simpl. by rewrite Hadded, length_take.
Qed.

Lemma articles_of_items_ready_witness :
  length (articles_of_items (fun text => Stripped text) feed3) =
    min 10 (length feed3) ∧
  articles_of_items (fun _ => StripAborted) feed3 = [] ∧
  articles_of_items
    (fun text => if decide (text = "No description") then StripSkipped
                 else Stripped text) feed3 =
  omap (fun item =>
          match article_of_item
                  (fun text => if decide (text = "No description")
                               then StripSkipped else Stripped text) item with
          | ItemArticle a => Some a
          | _ => None
          end) (take 10 feed3).
Proof.
  split_and!.
  - apply (proj2 (proj2 (proj2 (proj2 (proj2 (proj2
      (articles_of_items_ready (fun text => Stripped text) no_score no_score
         feed3))))))).
    intros text. by exists text.
  - apply (proj1 (proj2 (proj2 (proj2 (proj2
      (articles_of_items_ready (fun _ => StripAborted) no_score no_score
         feed3)))))).
    eexists. split; [left | reflexivity].
  - apply (proj1 (proj2 (proj2 (proj2 (proj2 (proj2
      (articles_of_items_ready
         (fun text => if decide (text = "No description") then StripSkipped
                      else Stripped text) no_score no_score feed3))))))).
    intros item Hin.
    repeat (apply elem_of_cons in Hin as [->|Hin]; [by vm_compute|]).
    by apply elem_of_nil in Hin.
Defined.

(** ** Sorting the topics by frequency *)

Lemma insert_sorted_Permutation {A} (before : A → A → bool) (x : A)
    (l : list A) :
  PyLib.insert_sorted before x l ≡ₚ x :: l.
Proof.
  induction l as [|y l IH]; simpl; [done|].
  destruct (before y x); [|done]. rewrite IH. apply Permutation_swap.
Qed.

Lemma stable_sort_Permutation {A} (before : A → A → bool) (l : list A) :
  PyLib.stable_sort before l ≡ₚ l.
Proof.
  unfold PyLib.stable_sort. induction l as [|x l IH]; simpl; [done|].
  by rewrite insert_sorted_Permutation, IH.
Qed.

Lemma insert_by_count_sorted (x : string * nat) (l : list (string * nat)) :
  StronglySorted (fun a b => b.2 ≤ a.2) l →
  StronglySorted (fun a b => b.2 ≤ a.2)
    (PyLib.insert_sorted (fun y x => x.2 <? y.2) x l).
Proof.
  induction 1 as [|y l Hl IH Hy]; simpl.
  - repeat constructor.
  - destruct (Nat.ltb_spec x.2 y.2) as [Hlt|Hge].
    + constructor; [done|].
      rewrite insert_sorted_Permutation. constructor; [lia | done].
    + constructor; [by constructor|]. constructor; [done|].
      eapply Forall_impl; [exact Hy|]. simpl. intros z ?. lia.
Qed.

Lemma sorted_by_count_desc_sorted (l : list (string * nat)) :
  StronglySorted (fun a b => b.2 ≤ a.2) (PyLib.sorted_by_count_desc l).
Proof.
  unfold PyLib.sorted_by_count_desc, PyLib.stable_sort.
  induction l as [|x l IH]; simpl; [constructor|].
  by apply insert_by_count_sorted.
Qed.

Lemma insert_by_count_stable (c : nat) (x : string * nat)
    (l : list (string * nat)) :
  filter (fun kv => kv.2 = c) (PyLib.insert_sorted (fun y x => x.2 <? y.2) x l) =
  filter (fun kv => kv.2 = c) (x :: l).
Proof.
  induction l as [|y l IH]; simpl; [done|].
  destruct (Nat.ltb_spec x.2 y.2) as [Hlt|Hge]; [|done].
  rewrite (filter_cons _ y), IH, !(filter_cons _ x), (filter_cons _ y).
  destruct (decide (y.2 = c)), (decide (x.2 = c)); try done. lia.
Qed.

(** X13: the topic list the dashboard charts holds the entries of the
    topic frequency, each once, in order of non-increasing count; entries
    with the same count stay in the order they have in the frequency
    dict. *)
Theorem sorted_topics_stable (topic_data : list (string * nat)) :
  PyLib.sorted_by_count_desc topic_data ≡ₚ topic_data ∧
  StronglySorted (fun a b => b.2 ≤ a.2) (PyLib.sorted_by_count_desc topic_data) ∧
  ∀ c, filter (fun kv => kv.2 = c) (PyLib.sorted_by_count_desc topic_data) =
       filter (fun kv => kv.2 = c) topic_data.
Proof.
  split_and!.
  - apply stable_sort_Permutation.
  - apply sorted_by_count_desc_sorted.
  - intros c. unfold PyLib.sorted_by_count_desc, PyLib.stable_sort.
    induction topic_data as [|x l IH]; simpl; [done|].
    by rewrite insert_by_count_stable, !(filter_cons _ x), IH.
Qed.

(** X14: the basic summary names at most three topics, three whenever
    there are that many; they are entries of the topic frequency, and no
    entry left out has a greater count than one that is named. *)
Theorem top_topics_maximal (r : analysis) :
  length (top_topics r) = min 3 (length (topic_frequency_of r)) ∧
  top_topics r ⊆ topic_frequency_of r ∧
  ∀ kv kv', kv ∈ top_topics r → kv' ∈ topic_frequency_of r →
            kv' ∉ top_topics r → kv'.2 ≤ kv.2.
Proof.
  unfold top_topics.
  pose proof (stable_sort_Permutation (fun y x : string * nat => x.2 <? y.2)
    (topic_frequency_of r)) as Hperm.
  pose proof (sorted_by_count_desc_sorted (topic_frequency_of r)) as Hsorted.
  fold (PyLib.sorted_by_count_desc (topic_frequency_of r)) in Hperm.
  set (s := PyLib.sorted_by_count_desc (topic_frequency_of r)) in *.
  split_and!.
  - by rewrite length_take, Hperm.
  - intros kv Hkv. rewrite <- Hperm.
    eapply elem_of_sublist; [done | apply sublist_take].
  - intros kv kv' Hkv Hkv' Hout.
    rewrite <- Hperm, <- (take_drop 3 s), elem_of_app in Hkv'.
    destruct Hkv' as [?|Hdrop]; [done|].
    rewrite <- (take_drop 3 s) in Hsorted.
    apply (StronglySorted_app_1_elem_of _ _ _ kv kv' Hsorted Hkv Hdrop).
Qed.

Lemma top_topics_maximal_witness :
  ("Regulation", 1).2 ≤ ("Technology", 2).2.
Proof.
  apply (proj2 (proj2 (top_topics_maximal (analyze four_topics)))
           ("Technology", 2) ("Regulation", 1)).
  - apply (bool_decide_unpack _). by vm_compute.
  - apply (bool_decide_unpack _). by vm_compute.
  - apply (bool_decide_unpack _). by vm_compute.
Defined.

(** ** The basic summary *)

Lemma topic_frequency_nonempty (articles : list article) :
  articles ≠ [] → topic_frequency_of (analyze articles) ≠ [].
Proof.
  intros Hne. rewrite topic_frequency_of_nonempty by done.
  destruct articles as [|a l]; [done|].
  destruct (derived_topics a) as [|t ts] eqn:Hd;
    [by apply extract_topics_nonempty in Hd|].
  assert (t ∈ elements (all_topics (topic_loop (a :: l)))) as Hin.
  { apply elem_of_elements, topic_loop_all_topics. exists a.
    split; [left | rewrite Hd; left]. }
  destruct (elements (all_topics (topic_loop (a :: l))));
    [by apply elem_of_nil in Hin | done].
Qed.

Lemma top_topics_nonempty (articles : list article) :
  articles ≠ [] → top_topics (analyze articles) ≠ [].
Proof.
  intros Hne%topic_frequency_nonempty. unfold top_topics.
  pose proof (stable_sort_Permutation (fun y x : string * nat => x.2 <? y.2)
    (topic_frequency_of (analyze articles))) as Hperm.
  fold (PyLib.sorted_by_count_desc (topic_frequency_of (analyze articles)))
    in Hperm.
  destruct (PyLib.sorted_by_count_desc (topic_frequency_of (analyze articles)));
    [|done].
  by apply Permutation_nil_l in Hperm.
Qed.

(** X15: for a non-empty article list the basic summary never falls back
    on the words "mixed" and "various topics": it gives the number of
    articles, the dominant sentiment, which is the label of one of the
    articles, and the names of the top topics, of which there is at least
    one. *)
Theorem basic_summary_nonempty (company : string) (articles : list article) :
  articles ≠ [] →
  ∃ dominant,
    Py.max_key (sentiment_distribution (analyze articles)) = Some dominant ∧
    dominant ∈ get_sentiment <$> articles ∧
    top_topics (analyze articles) ≠ [] ∧
    basic_summary company articles (analyze articles) =
      "News analysis for " +:+ company +:+ " based on " +:+
      pretty (length articles) +:+
      " recent articles. The overall sentiment is " +:+
      Py.lower dominant +:+ ", with coverage focusing on " +:+
      Py.join ", " (top_topics (analyze articles)).*1 +:+ ".".
Proof.
  intros Hne.
  destruct (max_key_is_Some (foldl count_sentiment [] articles)) as [m Hm];
    [by apply tally_nonempty|].
  exists m. rewrite analyze_sentiment_distribution. split_and!; [done | | |].
  - destruct (max_key_spec _ m (tally_NoDup [] articles NoDup_nil_2) Hm)
      as (n & Hn & _).
    assert (m ∈ (foldl count_sentiment [] articles).*1) as Hin
      by (apply dict_get_keys; by rewrite Hn).
    apply tally_keys in Hin as [[]%elem_of_nil|?]. done.
  - by apply top_topics_nonempty.
  - unfold basic_summary. rewrite analyze_sentiment_distribution, Hm.
    pose proof (top_topics_nonempty articles Hne) as Htop.
    by destruct (top_topics (analyze articles)).
Qed.

Lemma basic_summary_nonempty_witness :
  ∃ dominant,
    Py.max_key (sentiment_distribution (analyze four_topics)) = Some dominant ∧
    dominant ∈ get_sentiment <$> four_topics ∧
    top_topics (analyze four_topics) ≠ [] ∧
    basic_summary "Acme" four_topics (analyze four_topics) =
      "News analysis for " +:+ "Acme" +:+ " based on " +:+
      pretty (length four_topics) +:+
      " recent articles. The overall sentiment is " +:+
      Py.lower dominant +:+ ", with coverage focusing on " +:+
      Py.join ", " (top_topics (analyze four_topics)).*1 +:+ ".".
Proof. apply (basic_summary_nonempty "Acme" four_topics). discriminate. Defined.

Example basic_summary_three_articles :
  basic_summary "Acme" [a_neg; a_pos; a_neg] (analyze [a_neg; a_pos; a_neg]) =
  "News analysis for Acme based on 3 recent articles. The overall sentiment is negative, with coverage focusing on Automotive, Finance.".
Proof. vm_compute. reflexivity. Qed.

(** ** Sentences and words *)

Lemma is_terminator_not_blank (c : ascii) :
  is_terminator c = true → is_whitespace c = false.
Proof. by destruct c as [[] [] [] [] [] [] [] []]. Qed.

Lemma lower_ascii_blank (c : ascii) :
  is_whitespace (Py.lower_ascii c) = is_whitespace c.
Proof. by destruct c as [[] [] [] [] [] [] [] []]. Qed.

Lemma whitespace_only_lower (s : string) :
  whitespace_only (Py.lower s) ↔ whitespace_only s.
Proof.
  unfold whitespace_only. rewrite chars_lower, Forall_fmap.
  apply Forall_proper; [|done]. intros c. simpl. by rewrite lower_ascii_blank.
Qed.

Lemma rev_involutive (s : string) : String.rev (String.rev s) = s.
Proof.
  assert (∀ a b, chars a = chars b → a = b) as Hinj.
  { induction a as [|x a IH]; intros [|y b]; simpl; try done.
    intros [= -> ?]. f_equal. by apply IH. }
  apply Hinj. by rewrite !chars_rev, reverse_involutive.
Qed.

Lemma ends_sentence_not_blank (piece : string) :
  ends_sentence piece → ¬ whitespace_only piece.
Proof.
  intros (c & rest & Hrev & Hc) Hws%whitespace_only_rev.
  rewrite Hrev in Hws. apply Forall_cons in Hws as [Hws _].
  apply is_terminator_not_blank in Hc. congruence.
Qed.

Lemma split_go_pieces (acc : string) (gap : bool) (s : string) :
  ∃ init last,
    split_go acc gap s = init ++ [last] ∧ Forall ends_sentence init.
Proof.
  revert acc gap. induction s as [|c s IH]; intros acc gap; simpl.
  - exists [], (String.rev acc). by split.
  - destruct (gap && is_whitespace c); [apply IH|].
    destruct (is_terminator c) eqn:Hc; simpl; [|apply IH].
    destruct (starts_blank s); [|apply IH].
    destruct (IH "" true) as (init & last & -> & Hinit).
    exists (String.rev (String c acc) :: init), last. split; [done|].
    constructor; [|done]. exists c, acc. by rewrite rev_involutive.
Qed.

Lemma words_go_nonempty (acc s : string) :
  words_go acc s ≠ [] ↔ acc ≠ "" ∨ ¬ whitespace_only s.
Proof.
  unfold whitespace_only. revert acc. induction s as [|c s IH]; intros acc; simpl.
  - destruct (decide (acc = "")) as [->|Hne].
    + split; [done|]. intros [?|Hws]; [done|]. destruct Hws. constructor.
    + split; [auto | done].
  - rewrite Forall_cons. destruct (is_whitespace c) eqn:Hc.
    + destruct (decide (acc = "")) as [->|Hne].
      * rewrite IH. split; [intros [?|?]; [done|]; right; tauto|].
        intros [?|Hws]; [done|]. right. tauto.
      * split; [auto | done].
    + rewrite IH. split; [intros _; right; intros [? _]; done|].
      intros _. by left.
Qed.

Lemma split_words_nonempty (s : string) :
  split_words s ≠ [] ↔ ¬ whitespace_only s.
Proof. unfold split_words. rewrite words_go_nonempty. tauto. Qed.

(** X16: [split_sentences] always returns at least one piece, and every
    piece but the last ends with a full stop, an exclamation mark or a
    question mark; in particular only the last piece can be empty or
    blank. *)
Theorem split_sentences_pieces (text : string) :
  ∃ init last,
    split_sentences text = init ++ [last] ∧
    Forall ends_sentence init ∧
    Forall (fun piece => ¬ whitespace_only piece) init.
Proof.
  destruct (split_go_pieces "" false text) as (init & last & Heq & Hinit).
  exists init, last. split_and!; [done | done |].
  eapply Forall_impl; [exact Hinit|]. apply ends_sentence_not_blank.
Qed.

(** ** Scoring the sentences *)

Lemma store_key_keys {K V} `{EqDecision K} (k : K) (v : V) (d : list (K * V)) :
  (store_key k v d).*1 = if decide (k ∈ d.*1) then d.*1 else d.*1 ++ [k].
Proof.
  induction d as [|[k' v'] d IH].
  - simpl. by destruct (decide (k ∈ [])) as [?%elem_of_nil|].
  - cbn [store_key fmap list_fmap fst].
    destruct (decide (k = k')) as [->|Hne].
    + rewrite decide_True; [done | left].
    + cbn [fmap list_fmap fst]. rewrite IH. destruct (decide (k ∈ d.*1)).
      * rewrite decide_True; [done | by right].
      * rewrite decide_False; [done|]. rewrite elem_of_cons. tauto.
Qed.

Lemma lookup_key_keys {K V} `{EqDecision K} (k : K) (d : list (K * V)) :
  is_Some (lookup_key k d) ↔ k ∈ d.*1.
Proof.
  induction d as [|[k' v'] d IH]; simpl.
  - split; [by intros [? ?] | by intros ?%elem_of_nil].
  - rewrite elem_of_cons. destruct (decide (k = k')); [by split; eauto|].
    rewrite IH. tauto.
Qed.

Lemma add_score_keys weights (i : nat) (scores : list (nat * float))
    (word : string) :
  (add_score weights i scores word).*1 =
  if decide (is_Some (Py.dict_get word weights) ∧ i ∉ scores.*1)
  then scores.*1 ++ [i] else scores.*1.
Proof.
  unfold add_score. destruct (Py.dict_get word weights) as [w|].
  - destruct (lookup_key i scores) as [x|] eqn:Hx; rewrite store_key_keys.
    + assert (i ∈ scores.*1) as Hin by (apply lookup_key_keys; by rewrite Hx).
      rewrite decide_True by done. rewrite decide_False; [done | tauto].
    + assert (i ∉ scores.*1) as Hin.
      { intros [? ?]%lookup_key_keys. congruence. }
      rewrite decide_False by done. by rewrite decide_True.
  - rewrite decide_False; [done|]. intros [[? ?] _]. done.
Qed.

Lemma fold_add_score_keys weights (i : nat) (words : list string)
    (scores : list (nat * float)) :
  (foldl (add_score weights i) scores words).*1 =
  if decide (Exists (fun word => is_Some (Py.dict_get word weights)) words ∧
             i ∉ scores.*1)
  then scores.*1 ++ [i] else scores.*1.
Proof.
  revert scores. induction words as [|word words IH]; intros scores;
    cbn [foldl].
  - rewrite decide_False; [done|]. intros [?%Exists_nil _]. done.
  - rewrite IH, add_score_keys.
    destruct (decide (is_Some (Py.dict_get word weights) ∧ i ∉ scores.*1))
      as [[Hw Hi]|Hno].
    + rewrite decide_False.
      * rewrite decide_True; [done|]. split; [by left | done].
      * rewrite elem_of_app, list_elem_of_singleton. tauto.
    + destruct (decide (Exists (fun word => is_Some (Py.dict_get word weights))
                          words ∧ i ∉ scores.*1)) as [[Hw Hi]|Hno'].
      * rewrite decide_True; [done|]. split; [by right | done].
      * rewrite decide_False; [done|].
        intros [[?|?]%Exists_cons ?]; tauto.
Qed.

Lemma score_from_keys weights (i : nat) (sentences : list string)
    (scores : list (nat * float)) :
  (∀ k, k ∈ scores.*1 → k < i) →
  (score_from weights i scores sentences).*1 =
  scores.*1 ++ scored_indices weights i sentences.
Proof.
  revert i scores.
  induction sentences as [|s l IH]; intros i scores Hlt; simpl.
  - by rewrite app_nil_r.
  - assert (i ∉ scores.*1) as Hi by (intros ?%Hlt; lia).
    rewrite IH.
    + rewrite fold_add_score_keys. fold (scored weights s).
      destruct (decide (scored weights s)) as [Hs|Hs].
      * rewrite decide_True by done. by rewrite <- app_assoc.
      * rewrite decide_False by tauto. done.
    + intros k. rewrite fold_add_score_keys.
      destruct (decide _); [|intros ?%Hlt; lia].
      rewrite elem_of_app, list_elem_of_singleton. intros [?%Hlt| ->]; lia.
Qed.

Lemma scored_indices_range weights (i : nat) (sentences : list string) (k : nat) :
  k ∈ scored_indices weights i sentences →
  i ≤ k ∧ ∃ s, sentences !! (k - i) = Some s ∧ scored weights s.
Proof.
  revert i. induction sentences as [|s l IH]; intros i; simpl.
  - by intros ?%elem_of_nil.
  - rewrite elem_of_app. intros [Hk|Hk].
    + destruct (decide (scored weights s)); [|by apply elem_of_nil in Hk].
      apply list_elem_of_singleton in Hk as ->. split; [done|].
      exists s. by rewrite Nat.sub_diag.
    + apply IH in Hk as (Hle & s' & Hs' & Hsc). split; [lia|].
      exists s'. split; [|done].
      replace (k - i) with (S (k - S i)) by lia. done.
Qed.

Lemma scored_indices_sorted weights (i : nat) (sentences : list string) :
  StronglySorted lt (scored_indices weights i sentences).
Proof.
  revert i. induction sentences as [|s l IH]; intros i; simpl; [constructor|].
  destruct (decide (scored weights s)); simpl; [|apply IH].
  constructor; [apply IH|]. apply Forall_forall.
  intros k [Hk _]%scored_indices_range. lia.
Qed.

Lemma scored_indices_length weights (i : nat) (sentences : list string) :
  length (scored_indices weights i sentences) =
  length (filter (scored weights) sentences).
Proof.
  revert i. induction sentences as [|s l IH]; intros i; simpl; [done|].
  rewrite filter_cons, length_app, IH.
  by destruct (decide (scored weights s)).
Qed.

(** ** Every word has a weight *)

Lemma count_word_keys (freq : list (string * nat)) (word : string) :
  (count_word freq word).*1 =
  if decide (word ∈ freq.*1) then freq.*1 else freq.*1 ++ [word].
Proof.
  unfold count_word. destruct (Py.dict_get word freq); apply dict_set_keys.
Qed.

Lemma fold_count_word_keys (words : list string) (freq : list (string * nat))
    (word : string) :
  word ∈ (foldl count_word freq words).*1 ↔ word ∈ freq.*1 ∨ word ∈ words.
Proof.
  revert freq. induction words as [|w words IH]; intros freq; cbn [foldl].
  - rewrite elem_of_nil. tauto.
  - rewrite IH, count_word_keys, elem_of_cons.
    destruct (decide (w ∈ freq.*1)).
    + intuition (subst; auto).
    + rewrite elem_of_app, list_elem_of_singleton. tauto.
Qed.

Lemma count_words_from_keys (sentences : list string)
    (freq : list (string * nat)) (word : string) :
  word ∈ (foldl (fun freq sentence =>
                   foldl count_word freq (split_words (Py.lower sentence)))
                freq sentences).*1 ↔
  word ∈ freq.*1 ∨
  ∃ s, s ∈ sentences ∧ word ∈ split_words (Py.lower s).
Proof.
  revert freq. induction sentences as [|s l IH]; intros freq; cbn [foldl].
  - split; [auto | intros [?|(? & []%elem_of_nil & _)]; done].
  - rewrite IH, fold_count_word_keys. split.
    + intros [[?|?]|(s' & ? & ?)]; [by left | |].
      * right. exists s. split; [left | done].
      * right. exists s'. split; [by right | done].
    + intros [?|(s' & [->|?]%elem_of_cons & ?)]; eauto.
Qed.

Lemma normalize_keys (freq : list (string * nat)) :
  (normalize freq).*1 = freq.*1.
Proof.
  unfold normalize. rewrite <- list_fmap_compose. by apply list_fmap_ext.
Qed.

Lemma scored_full (sentences : list string) (s : string) :
  s ∈ sentences →
  scored (normalize (count_words sentences)) s ↔ ¬ whitespace_only s.
Proof.
  intros Hs. rewrite <- whitespace_only_lower, <- split_words_nonempty.
  unfold scored. split.
  - intros Hex Hnil. rewrite Hnil in Hex. by apply Exists_nil in Hex.
  - destruct (split_words (Py.lower s)) as [|w ws] eqn:Hw; [done|].
    intros _. apply Exists_cons_hd, dict_get_keys.
    rewrite normalize_keys. apply count_words_from_keys. right.
    exists s. split; [done|]. rewrite Hw. left.
Qed.

(** ** Choosing the sentences *)

Lemma insert_asc_sorted (x : nat) (l : list nat) :
  StronglySorted le l →
  StronglySorted le (PyLib.insert_sorted (fun y x => y <? x) x l).
Proof.
  induction 1 as [|y l Hl IH Hy]; simpl.
  - repeat constructor.
  - destruct (Nat.ltb_spec y x) as [Hlt|Hge].
    + constructor; [done|].
      rewrite insert_sorted_Permutation. constructor; [lia | done].
    + constructor; [by constructor|]. constructor; [done|].
      eapply Forall_impl; [exact Hy|]. simpl. intros z ?. lia.
Qed.

Lemma sort_asc_sorted (l : list nat) :
  StronglySorted le (PyLib.stable_sort (fun y x => y <? x) l).
Proof.
  unfold PyLib.stable_sort. induction l as [|x l IH]; simpl; [constructor|].
  by apply insert_asc_sorted.
Qed.

Lemma sorted_NoDup_strict (l : list nat) :
  StronglySorted le l → NoDup l → StronglySorted lt l.
Proof.
  induction 1 as [|x l Hl IH Hx]; intros Hnd; [constructor|].
  apply NoDup_cons in Hnd as [Hnotin Hnd]. constructor; [by apply IH|].
  rewrite Forall_forall in Hx. apply Forall_forall. intros y Hy.
  assert (x ≠ y) by (by intros ->). specialize (Hx y Hy). lia.
Qed.

Lemma sorted_sublist_seq (n a : nat) (idxs : list nat) :
  StronglySorted lt idxs → Forall (fun k => a ≤ k < a + n) idxs →
  idxs `sublist_of` seq a n.
Proof.
  revert a idxs. induction n as [|n IH]; intros a idxs Hsorted Hrange.
  - destruct idxs as [|k idxs]; [done|].
    apply Forall_cons in Hrange as [? _]. lia.
  - destruct idxs as [|k idxs]; [apply sublist_nil_l|]. simpl.
    apply StronglySorted_inv in Hsorted as [Hsorted Hk].
    apply Forall_cons in Hrange as [Hka Hrange].
    rewrite Forall_forall in Hk, Hrange.
    destruct (decide (k = a)) as [->|Hne].
    + apply sublist_skip, IH; [done|]. apply Forall_forall.
      intros j Hj. specialize (Hk j Hj). specialize (Hrange j Hj). lia.
    + apply sublist_cons, IH; [by constructor; [|apply Forall_forall]|].
      constructor; [lia|]. apply Forall_forall.
      intros j Hj. specialize (Hk j Hj). specialize (Hrange j Hj). lia.
Qed.

Lemma lookup_total_seq (l : list string) :
  (fun i => l !!! i) <$> seq 0 (length l) = l.
Proof.
  induction l as [|x l IH]; [done|]. simpl. f_equal.
  rewrite <- fmap_S_seq, <- list_fmap_compose. exact IH.
Qed.

Lemma picks_sublist (l : list string) (idxs : list nat) :
  StronglySorted lt idxs → Forall (fun k => k < length l) idxs →
  ((fun i => l !!! i) <$> idxs) `sublist_of` l.
Proof.
  intros Hsorted Hrange.
  assert (idxs `sublist_of` seq 0 (length l)) as Hsub.
  { apply sorted_sublist_seq; [done|].
    eapply Forall_impl; [exact Hrange|]. simpl. intros k ?. lia. }
  apply (fmap_sublist (fun i => l !!! i)) in Hsub.
  by rewrite lookup_total_seq in Hsub.
Qed.

(** ** The local summarizer *)

Lemma join_nonempty (sep p : string) (ps : list string) :
  p ≠ "" → Py.join sep (p :: ps) ≠ "".
Proof.
  destruct p as [|c p]; [done|]. intros _. simpl.
  destruct ps; [done|]. by rewrite app_cons.
Qed.

Lemma local_summarize_long (text : string) (n : nat) :
  text ≠ "" → 100 ≤ String.length text →
  n < length (split_sentences text) →
  ∃ idxs,
    local_summarize text n =
      Py.join " " ((fun i => split_sentences text !!! i) <$> idxs) ∧
    StronglySorted lt idxs ∧
    length idxs = n ∧
    Forall (fun k => k < length (split_sentences text) ∧
                     ¬ whitespace_only (split_sentences text !!! k)) idxs.
Proof.
  intros Hne Hlen Hn. unfold local_summarize.
  rewrite bool_decide_eq_false_2 by done.
  destruct (Nat.ltb_spec (String.length text) 100) as [?|_]; [lia|].
  destruct (Nat.leb_spec (length (split_sentences text)) n) as [?|_]; [lia|].
  cbn [orb].
  set (sentences := split_sentences text) in *.
  set (weights := normalize (count_words sentences)).
  set (scores := score_from weights 0 [] sentences).
  set (ranked := PyLib.stable_sort _ scores.*1).
  set (chosen := PyLib.stable_sort _ (take n ranked)).
  assert (scores.*1 = scored_indices weights 0 sentences) as Hkeys.
  { unfold scores. rewrite score_from_keys; [done|].
    by intros k ?%elem_of_nil. }
  assert (ranked ≡ₚ scores.*1) as Hranked by apply stable_sort_Permutation.
  assert (chosen ≡ₚ take n ranked) as Hchosen by apply stable_sort_Permutation.
  assert (∀ k, k ∈ scores.*1 →
            k < length sentences ∧ ¬ whitespace_only (sentences !!! k)) as Hkey.
  { intros k Hk. rewrite Hkeys in Hk.
    apply scored_indices_range in Hk as (_ & s & Hs & Hsc).
    rewrite Nat.sub_0_r in Hs. split; [by eapply lookup_lt_Some|].
    rewrite (list_lookup_total_correct _ _ _ Hs).
    apply (scored_full sentences); [|done]. by eapply list_elem_of_lookup_2. }
  assert (NoDup scores.*1) as Hnd.
  { rewrite Hkeys. eapply sublist_NoDup; [apply (NoDup_seq 0 (length sentences))|].
    apply sorted_sublist_seq; [apply scored_indices_sorted|].
    apply Forall_forall. intros k Hk. rewrite <- Hkeys in Hk.
    apply Hkey in Hk. lia. }
  assert (∀ k, k ∈ chosen → k ∈ scores.*1) as Hin.
  { intros k Hk. rewrite <- Hranked. rewrite Hchosen in Hk.
    eapply elem_of_sublist; [done | apply sublist_take]. }
  assert (n ≤ length scores.*1) as Hmany.
  { rewrite Hkeys, scored_indices_length.
    destruct (split_go_pieces "" false text) as (init & last & Heq & Hinit).
    fold (split_sentences text) in Heq. fold sentences in Heq.
    assert (length sentences = S (length init)) as Hl
      by (rewrite Heq, length_app; simpl; lia).
    assert (length init ≤ length (filter (scored weights) sentences)); [|lia].
    rewrite Heq, filter_app, length_app.
    assert (filter (scored weights) init = init) as ->; [|lia].
    assert (Forall (scored weights) init) as Hall.
    { rewrite Forall_forall in Hinit. apply Forall_forall. intros s Hs.
      apply (scored_full sentences).
      - rewrite Heq, elem_of_app. by left.
      - by apply ends_sentence_not_blank, Hinit. }
    clear -Hall. induction Hall as [|s l Hs _ IH]; [done|].
    by rewrite filter_cons_True, IH. }
  exists chosen. split_and!.
  - done.
  - apply sorted_NoDup_strict; [apply sort_asc_sorted|].
    rewrite Hchosen. eapply sublist_NoDup; [|apply sublist_take].
    by rewrite Hranked.
  - rewrite Hchosen, length_take, Hranked. lia.
  - apply Forall_forall. intros k Hk. by apply Hkey, Hin.
Qed.

Lemma local_summarize_short (text : string) (n : nat) :
  text = "" ∨ String.length text < 100 ∨ length (split_sentences text) ≤ n →
  local_summarize text n = text.
Proof.
  intros Hcase. unfold local_summarize.
  destruct (bool_decide (text = "")) eqn:He; [done|].
  destruct (Nat.ltb_spec (String.length text) 100) as [?|?]; [done|].
  destruct (Nat.leb_spec (length (split_sentences text)) n) as [?|?]; [done|].
  apply bool_decide_eq_false in He. destruct Hcase as [?|[?|?]]; [done|lia..].
Qed.

(** X18: for an ASCII text of at least 100 characters that splits into
    more sentences than asked for, the summary is made of exactly
    [max_sentences] sentences of the text, none of them blank, in the order
    they have in the text, joined by single spaces. *)
Theorem local_summarize_selects (text : string) (max_sentences : nat) :
  ascii_text text →
  100 ≤ String.length text →
  max_sentences < length (split_sentences text) →
  ∃ picks,
    local_summarize text max_sentences = Py.join " " picks ∧
    picks `sublist_of` split_sentences text ∧
    length picks = max_sentences ∧
    Forall (fun piece => ¬ whitespace_only piece) picks.
Proof.
  intros _ Hlen Hn.
  assert (text ≠ "") as Hne by (intros ->; simpl in Hlen; lia).
  destruct (local_summarize_long text max_sentences Hne Hlen Hn)
    as (idxs & Heq & Hsorted & Hlength & Hidx).
  exists ((fun i => split_sentences text !!! i) <$> idxs). split_and!.
  - done.
  - apply picks_sublist; [done|].
    eapply Forall_impl; [exact Hidx|]. simpl. tauto.
  - by rewrite length_fmap.
  - apply Forall_fmap. eapply Forall_impl; [exact Hidx|]. simpl. tauto.
Qed.

Lemma local_summarize_selects_witness :
  ∃ picks,
    local_summarize sample_text 2 = Py.join " " picks ∧
    picks `sublist_of` split_sentences sample_text ∧
    length picks = 2 ∧
    Forall (fun piece => ¬ whitespace_only piece) picks.
Proof.
  apply (local_summarize_selects sample_text 2).
  - apply (bool_decide_unpack _). by vm_compute.
  - vm_compute. lia.
  - vm_compute. lia.
Defined.

Example local_summarize_sample :
  local_summarize sample_text 2 =
  "Delta beta beta beta. Theta beta again and again.".
Proof. vm_compute. reflexivity. Qed.

Lemma local_summarize_nonempty (text : string) (n : nat) :
  text ≠ "" → 0 < n → local_summarize text n ≠ "".
Proof.
  intros Hne Hn.
  destruct (decide (String.length text < 100 ∨
                    length (split_sentences text) ≤ n)) as [Hcase|Hcase].
  { rewrite local_summarize_short; [done | tauto]. }
  destruct (local_summarize_long text n) as (idxs & -> & _ & Hlength & Hidx);
    [done | lia | lia |].
  destruct idxs as [|k idxs]; [simpl in Hlength; lia|].
  apply Forall_cons in Hidx as [[_ Hk] _]. rewrite fmap_cons.
  apply join_nonempty. intros Hempty. apply Hk. rewrite Hempty. constructor.
Qed.

(** ** The summarizer and the callers' fallback *)

Lemma get_groq_summary_unavailable api_key call (text : string)
    (fallback : bool) :
  api_unavailable api_key call text →
  get_groq_summary api_key call text fallback =
  if fallback then Some (local_summarize text 5) else None.
Proof.
  unfold get_groq_summary. intros [->|[->|Hcall]]; [done | done |].
  destruct api_key as [key|]; [|done].
  destruct (bool_decide (key = "")); [done|].
  by destruct Hcall as [->|[->| ->]].
Qed.

(** X19: with the fallback switched on, as it is by default,
    [get_groq_summary] returns [None] in one case only, that of an API
    answering with a [null] content. Whenever the key is missing or empty or
    the request raises, it returns the local summary of the text, which is
    not empty unless the text is; without the fallback those failures give
    [None]. *)
Theorem get_groq_summary_fallback api_key call (text : string) :
  (get_groq_summary api_key call text true = None ↔
   ∃ key, api_key = Some key ∧ key ≠ "" ∧ call text = ApiNull) ∧
  (api_unavailable api_key call text →
   get_groq_summary api_key call text true = Some (local_summarize text 5) ∧
   get_groq_summary api_key call text false = None ∧
   (text ≠ "" → local_summarize text 5 ≠ "")).
Proof.
  split.
  - unfold get_groq_summary. destruct api_key as [key|].
    + destruct (decide (key = "")) as [->|Hkey].
      * split; [done | intros (? & [= <-] & ? & _); done].
      * rewrite bool_decide_eq_false_2 by done.
        destruct (call text) eqn:Hcall;
          (split; [try done; intros _; by exists key
                  | try done; intros (? & _ & _ & ?); done]).
    + split; [done | intros (? & ? & _); done].
  - intros Hun. rewrite !(get_groq_summary_unavailable _ _ _ _ Hun).
    split_and!; [done | done |].
    intros Hne. apply local_summarize_nonempty; [done | lia].
Qed.

Lemma get_groq_summary_fallback_witness :
  get_groq_summary None (fun _ => ApiOtherError) "Shares surge." true =
    Some (local_summarize "Shares surge." 5) ∧
  get_groq_summary None (fun _ => ApiOtherError) "Shares surge." false = None ∧
  ("Shares surge." ≠ "" → local_summarize "Shares surge." 5 ≠ "").
Proof.
  apply (proj2 (get_groq_summary_fallback None (fun _ => ApiOtherError)
                  "Shares surge.")).
  left. reflexivity.
Defined.

(** X20: a caller reaches its basic summary only when the API itself
    answers with an empty or a [null] content. When the API is unavailable
    the summary is the local summary of the prompt, and when the API gives
    a non-empty content the summary is that content. *)
Theorem comprehensive_summary_source api_key call (prompt company : string)
    (analyzed_articles : list article) (r : analysis) :
  prompt ≠ "" →
  (api_unavailable api_key call prompt →
   comprehensive_summary api_key call prompt company analyzed_articles r =
     local_summarize prompt 5) ∧
  (∀ key content,
     api_key = Some key → key ≠ "" → call prompt = ApiContent content →
     comprehensive_summary api_key call prompt company analyzed_articles r =
       if decide (content = "")
       then basic_summary company analyzed_articles r
       else content) ∧
  (∀ key,
     api_key = Some key → key ≠ "" → call prompt = ApiNull →
     comprehensive_summary api_key call prompt company analyzed_articles r =
       basic_summary company analyzed_articles r).
Proof.
  intros Hne. unfold comprehensive_summary. split_and!.
  - intros Hun. rewrite (get_groq_summary_unavailable _ _ _ _ Hun).
    rewrite bool_decide_eq_false_2; [done|].
    apply local_summarize_nonempty; [done | lia].
  - intros key content -> Hkey Hcall. unfold get_groq_summary.
    rewrite bool_decide_eq_false_2 by done. rewrite Hcall.
    destruct (decide (content = "")) as [->|Hc].
    + by rewrite bool_decide_eq_true_2.
    + by rewrite bool_decide_eq_false_2.
  - intros key -> Hkey Hcall. unfold get_groq_summary.
    rewrite bool_decide_eq_false_2 by done. by rewrite Hcall.
Qed.

Lemma comprehensive_summary_source_witness :
  comprehensive_summary (Some "") (fun _ => ApiContent "ignored")
    "Summarize the following news articles about Acme:" "Acme" [] (analyze []) =
  local_summarize "Summarize the following news articles about Acme:" 5.
Proof.
  apply (proj1 (comprehensive_summary_source (Some "")
    (fun _ => ApiContent "ignored")
    "Summarize the following news articles about Acme:" "Acme" [] (analyze [])
    ltac:(discriminate))).
  right. left. reflexivity.
Defined.

(** ** The narration *)

Lemma translation_prompt_nonempty (company_name text language : string) :
  translation_prompt company_name text language ≠ "".
Proof. unfold translation_prompt. by rewrite app_cons. Qed.

(** X21: for English the text is spoken as it is and the summarizer is
    not consulted. For any other language, when the API is unavailable, the
    text spoken is the local summary of the translation prompt itself; the
    message prepared in the target language is spoken only when the API
    answers with an empty or a [null] content. *)
Theorem tts_text_source api_key call (company_name text language : string) :
  tts_text api_key call company_name text "en" = text ∧
  (language ≠ "en" →
   (api_unavailable api_key call
      (translation_prompt company_name text language) →
    tts_text api_key call company_name text language =
      local_summarize (translation_prompt company_name text language) 5) ∧
   (∀ key content,
      api_key = Some key → key ≠ "" →
      call (translation_prompt company_name text language) =
        ApiContent content →
      tts_text api_key call company_name text language =
        if decide (content = "")
        then fallback_message language company_name
        else content) ∧
   (∀ key,
      api_key = Some key → key ≠ "" →
      call (translation_prompt company_name text language) = ApiNull →
      tts_text api_key call company_name text language =
        fallback_message language company_name)).
Proof.
  split; [done|]. intros Hlang. unfold tts_text.
  rewrite decide_True by done. split_and!.
  - intros Hun. rewrite (get_groq_summary_unavailable _ _ _ _ Hun).
    rewrite bool_decide_eq_false_2; [done|].
    apply local_summarize_nonempty; [|lia].
    apply translation_prompt_nonempty.
  - intros key content -> Hkey Hcall. unfold get_groq_summary.
    rewrite bool_decide_eq_false_2 by done. rewrite Hcall.
    destruct (decide (content = "")) as [->|Hc].
    + by rewrite bool_decide_eq_true_2.
    + by rewrite bool_decide_eq_false_2.
  - intros key -> Hkey Hcall. unfold get_groq_summary.
    rewrite bool_decide_eq_false_2 by done. by rewrite Hcall.
Qed.

Lemma tts_text_source_witness :
  tts_text None (fun _ => ApiOtherError) "Acme" "Shares surge." "hi" =
  local_summarize (translation_prompt "Acme" "Shares surge." "hi") 5.
Proof.
  apply (proj1 (proj2 (tts_text_source None (fun _ => ApiOtherError)
                         "Acme" "Shares surge." "hi") ltac:(discriminate))).
  left. reflexivity.
Defined.

(** ** The length of the local summary *)

Lemma string_length_chars (s : string) : String.length s = length (chars s).
Proof. induction s as [|c s IH]; simpl; [done | by rewrite IH]. Qed.

Lemma string_length_rev (s : string) :
  String.length (String.rev s) = String.length s.
Proof. by rewrite !string_length_chars, chars_rev, length_reverse. Qed.

Lemma string_length_app (s t : string) :
  String.length (s +:+ t) = String.length s + String.length t.
Proof. by rewrite !string_length_chars, chars_app, length_app. Qed.

Lemma join_size (pieces : list string) :
  pieces ≠ [] → S (String.length (Py.join " " pieces)) = joined_size pieces.
Proof.
  unfold joined_size. induction pieces as [|x l IH]; [done|]. intros _.
  destruct l as [|y l]; [simpl; lia|].
  assert (Py.join " " (x :: y :: l) = x +:+ " " +:+ Py.join " " (y :: l)) as ->
    by done.
  rewrite !string_length_app, fmap_cons. cbn [sum_list sum_list_with].
  rewrite <- IH by done. simpl. lia.
Qed.

Lemma joined_size_sublist (l1 l2 : list string) :
  l1 `sublist_of` l2 → joined_size l1 ≤ joined_size l2.
Proof.
  unfold joined_size.
  induction 1 as [|x l1 l2 _ IH|x l1 l2 _ IH]; simpl in *; unfold fmap in *; lia.
Qed.

Lemma split_go_size (acc : string) (gap : bool) (s : string) :
  joined_size (split_go acc gap s) + (if gap && starts_blank s then 1 else 0) ≤
  S (String.length acc + String.length s).
Proof.
  revert acc gap. induction s as [|c s IH]; intros acc gap.
  - simpl. unfold joined_size. simpl. rewrite string_length_rev.
    destruct gap; simpl; lia.
  - cbn [split_go starts_blank]. destruct (gap && is_whitespace c) eqn:Hgap.
    + apply andb_true_iff in Hgap as [-> _].
      specialize (IH acc true). simpl in *.
      destruct (starts_blank s); lia.
    + destruct (is_terminator c && starts_blank s) eqn:Hterm.
      * apply andb_true_iff in Hterm as [_ Hblank].
        specialize (IH "" true). rewrite Hblank in IH.
        unfold joined_size in *. rewrite fmap_cons. cbn [sum_list sum_list_with].
        rewrite string_length_rev. simpl in *. lia.
      * specialize (IH (String c acc) false). simpl in *. lia.
Qed.

(** X22: the local summary is never longer than the text it is made
    from. *)
Theorem local_summarize_length (text : string) (max_sentences : nat) :
  String.length (local_summarize text max_sentences) ≤ String.length text.
Proof.
  destruct (decide (text = "" ∨ String.length text < 100 ∨
                    length (split_sentences text) ≤ max_sentences))
    as [Hcase|Hcase].
  { by rewrite local_summarize_short. }
  destruct (local_summarize_long text max_sentences)
    as (idxs & -> & Hsorted & _ & Hidx); [tauto | lia | lia |].
  set (picks := (fun i => split_sentences text !!! i) <$> idxs).
  assert (picks `sublist_of` split_sentences text) as Hsub.
  { apply picks_sublist; [done|].
    eapply Forall_impl; [exact Hidx|]. simpl. tauto. }
  destruct (decide (picks = [])) as [->|Hne]; [simpl; lia|].
  pose proof (join_size picks Hne) as Hjoin.
  pose proof (joined_size_sublist _ _ Hsub) as Hle.
  pose proof (split_go_size "" false text) as Hsplit.
  fold (split_sentences text) in Hsplit. simpl in Hsplit. lia.
Qed.
